(** * TrackSynchronizer (pkg/synchronizer/track.go)

    A shallow embedding of the per-track RTP synchronizer: the mapping of
    16-bit sequence numbers and 32-bit RTP timestamps to a presentation
    timeline, with sequence resets, timestamp unwrapping, synthetic frame
    insertion and sender-report drift correction.

    Conventions.
    - Go's fixed-width integers are [Z] with the wrap-around written out:
      [u16], [u32] for uint16/uint32 and [wrap64] for int64.
    - [time.Duration] is an int64 count of nanoseconds.
    - float64 is IEEE binary64, computed with the [spec_float] operations of
      the standard library at precision 53 and exponent bound 1024.
    - The receiver [t *TrackSynchronizer] and the packets [pkt *rtp.Packet]
      are mutated in place by the Go code; here every method returns the
      new track state and the new packet next to its Go results.
    - The mutex is held for the whole of every exported method, so each
      method is modelled as one atomic state transformer. *)

From Stdlib Require Import ZArith Lia Bool List String.
From Stdlib Require Import Floats.SpecFloat.
Import ListNotations.
Open Scope Z_scope.

(** ** Fixed-width integers *)

Module Int.

Definition u16 (z : Z) : Z := z mod 2 ^ 16.
Definition u32 (z : Z) : Z := z mod 2 ^ 32.
Definition wrap64 (z : Z) : Z := (z + 2 ^ 63) mod 2 ^ 64 - 2 ^ 63.

Definition is_u16 (z : Z) : Prop := 0 <= z < 2 ^ 16.
Definition is_u32 (z : Z) : Prop := 0 <= z < 2 ^ 32.
Definition is_i64 (z : Z) : Prop := - 2 ^ 63 <= z < 2 ^ 63.

End Int.
Import Int.

(** ** float64 *)

Module F64.

Definition prec : Z := 53.
Definition emax : Z := 1024.

Definition float64 := spec_float.

(** [float64(x)] for an integer [x]: round to nearest, ties to even. *)
Definition of_int (z : Z) : float64 := binary_normalize prec emax z 0 false.

Definition mul : float64 -> float64 -> float64 := SFmul prec emax.
Definition div : float64 -> float64 -> float64 := SFdiv prec emax.

(** [math.Round]: nearest integer, halves away from zero; zeros, infinities
    and NaN are returned as they are. *)
Definition Round (x : float64) : float64 :=
  match x with
  | S754_finite s m e =>
      if 0 <=? e then x
      else
        let d := 2 ^ (- e) in
        let q := Z.pos m / d in
        let r := Z.pos m mod d in
        let n := if d <=? 2 * r then q + 1 else q in
        binary_normalize prec emax (cond_Zopp s n) 0 s
  | _ => x
  end.

(** [int64(x)] for a float64 [x]: truncation toward zero.  Go leaves the
    result implementation-dependent when the value does not fit; the model
    takes the amd64 result, the smallest int64. *)
Definition to_int64 (x : float64) : Z :=
  match x with
  | S754_zero _ => 0
  | S754_finite s m e =>
      let v := cond_Zopp s (if 0 <=? e then Z.pos m * 2 ^ e
                            else Z.pos m / 2 ^ (- e)) in
      if (- 2 ^ 63 <=? v) && (v <? 2 ^ 63) then v else - 2 ^ 63
  | _ => - 2 ^ 63
  end.

End F64.

(** ** Constants *)

Definition maxSNDropout : Z := 3000.
Definition uint32Overflow : Z := 4294967296.

(** ** Data *)

(** The two header fields of [rtp.Packet] the synchronizer reads and writes. *)
Record Packet := mkPacket {
  SequenceNumber : Z;   (* uint16 *)
  Timestamp : Z         (* uint32 *)
}.

Definition Packet_ok (p : Packet) : Prop :=
  is_u16 (SequenceNumber p) /\ is_u32 (Timestamp p).

Definition setSequenceNumber (p : Packet) (sn : Z) : Packet :=
  {| SequenceNumber := sn; Timestamp := Timestamp p |}.
Definition setTimestamp (p : Packet) (ts : Z) : Packet :=
  {| SequenceNumber := SequenceNumber p; Timestamp := ts |}.

Inductive RTPCodecType := RTPCodecTypeUnknown | RTPCodecTypeAudio | RTPCodecTypeVideo.

(** What [newTrackSynchronizer] reads through the [TrackRemote] interface. *)
Record TrackRemote := mkTrackRemote {
  ID : string;
  ClockRate : Z;        (* uint32, track.Codec().ClockRate *)
  Kind : RTPCodecType
}.

Record TrackSynchronizer := mkTrack {
  (* track info *)
  trackID : string;
  rtpDuration : F64.float64;     (* duration in ns per unit RTP time *)
  frameDuration : Z;             (* int64, frame duration in RTP time *)
  defaultFrameDuration : Z;      (* int64, used if no value has been recorded *)
  (* timing info *)
  startedAt : Z;                 (* int64, unix nanoseconds *)
  firstTS : Z;                   (* int64, first RTP timestamp received *)
  maxPTS : Z;                    (* time.Duration *)
  (* previous packet info *)
  lastSN : Z;                    (* uint16 *)
  lastTS : Z;                    (* int64 *)
  lastPTS : Z;                   (* time.Duration *)
  lastValid : bool;
  inserted : Z;                  (* int64, number of frames inserted *)
  (* offsets *)
  snOffset : Z;                  (* uint16 *)
  ptsOffset : Z;                 (* int64 *)
  lastPTSDrift : Z               (* time.Duration *)
}.

Definition set_frameDuration (t : TrackSynchronizer) (v : Z) :=
  mkTrack (trackID t) (rtpDuration t) v (defaultFrameDuration t)
    (startedAt t) (firstTS t) (maxPTS t)
    (lastSN t) (lastTS t) (lastPTS t) (lastValid t) (inserted t)
    (snOffset t) (ptsOffset t) (lastPTSDrift t).
Definition set_startedAt (t : TrackSynchronizer) (v : Z) :=
  mkTrack (trackID t) (rtpDuration t) (frameDuration t) (defaultFrameDuration t)
    v (firstTS t) (maxPTS t)
    (lastSN t) (lastTS t) (lastPTS t) (lastValid t) (inserted t)
    (snOffset t) (ptsOffset t) (lastPTSDrift t).
Definition set_firstTS (t : TrackSynchronizer) (v : Z) :=
  mkTrack (trackID t) (rtpDuration t) (frameDuration t) (defaultFrameDuration t)
    (startedAt t) v (maxPTS t)
    (lastSN t) (lastTS t) (lastPTS t) (lastValid t) (inserted t)
    (snOffset t) (ptsOffset t) (lastPTSDrift t).
Definition set_lastSN (t : TrackSynchronizer) (v : Z) :=
  mkTrack (trackID t) (rtpDuration t) (frameDuration t) (defaultFrameDuration t)
    (startedAt t) (firstTS t) (maxPTS t)
    v (lastTS t) (lastPTS t) (lastValid t) (inserted t)
    (snOffset t) (ptsOffset t) (lastPTSDrift t).
Definition set_lastTS (t : TrackSynchronizer) (v : Z) :=
  mkTrack (trackID t) (rtpDuration t) (frameDuration t) (defaultFrameDuration t)
    (startedAt t) (firstTS t) (maxPTS t)
    (lastSN t) v (lastPTS t) (lastValid t) (inserted t)
    (snOffset t) (ptsOffset t) (lastPTSDrift t).
Definition set_lastPTS (t : TrackSynchronizer) (v : Z) :=
  mkTrack (trackID t) (rtpDuration t) (frameDuration t) (defaultFrameDuration t)
    (startedAt t) (firstTS t) (maxPTS t)
    (lastSN t) (lastTS t) v (lastValid t) (inserted t)
    (snOffset t) (ptsOffset t) (lastPTSDrift t).
Definition set_lastValid (t : TrackSynchronizer) (v : bool) :=
  mkTrack (trackID t) (rtpDuration t) (frameDuration t) (defaultFrameDuration t)
    (startedAt t) (firstTS t) (maxPTS t)
    (lastSN t) (lastTS t) (lastPTS t) v (inserted t)
    (snOffset t) (ptsOffset t) (lastPTSDrift t).
Definition set_inserted (t : TrackSynchronizer) (v : Z) :=
  mkTrack (trackID t) (rtpDuration t) (frameDuration t) (defaultFrameDuration t)
    (startedAt t) (firstTS t) (maxPTS t)
    (lastSN t) (lastTS t) (lastPTS t) (lastValid t) v
    (snOffset t) (ptsOffset t) (lastPTSDrift t).
Definition set_snOffset (t : TrackSynchronizer) (v : Z) :=
  mkTrack (trackID t) (rtpDuration t) (frameDuration t) (defaultFrameDuration t)
    (startedAt t) (firstTS t) (maxPTS t)
    (lastSN t) (lastTS t) (lastPTS t) (lastValid t) (inserted t)
    v (ptsOffset t) (lastPTSDrift t).
Definition set_ptsOffset (t : TrackSynchronizer) (v : Z) :=
  mkTrack (trackID t) (rtpDuration t) (frameDuration t) (defaultFrameDuration t)
    (startedAt t) (firstTS t) (maxPTS t)
    (lastSN t) (lastTS t) (lastPTS t) (lastValid t) (inserted t)
    (snOffset t) v (lastPTSDrift t).

(** The results of the Go methods. *)
Inductive error := EOF.   (* io.EOF, the only error GetPTS returns *)

(** ** Construction and initialisation *)

Definition newTrackSynchronizer (track : TrackRemote) : TrackSynchronizer :=
  let clockRate := F64.of_int (ClockRate track) in
  {| trackID := ID track;
     rtpDuration := F64.div (F64.of_int 1000000000) clockRate;
     frameDuration := 0;
     defaultFrameDuration :=
       match Kind track with
       | RTPCodecTypeAudio => F64.to_int64 (F64.div clockRate (F64.of_int 50))
       | _ => F64.to_int64 (F64.div clockRate (F64.of_int 24))
       end;
     startedAt := 0; firstTS := 0; maxPTS := 0;
     lastSN := 0; lastTS := 0; lastPTS := 0; lastValid := false; inserted := 0;
     snOffset := 0; ptsOffset := 0; lastPTSDrift := 0 |}.

(** [Initialize]: [now] is [time.Now().UnixNano()] and [sessionStart] is
    what the session's [getOrSetStartedAt(now)] answered. *)
Definition Initialize (now sessionStart : Z) (t : TrackSynchronizer) (pkt : Packet)
  : TrackSynchronizer :=
  let t := set_startedAt t now in
  let t := set_firstTS t (Timestamp pkt) in
  set_ptsOffset t (wrap64 (now - sessionStart)).

(** ** Frame duration *)

Definition getFrameDurationRTP (t : TrackSynchronizer) : Z :=
  if negb (frameDuration t =? 0) then frameDuration t
  else defaultFrameDuration t.

(** [time.Duration(math.Round(float64(x) * t.rtpDuration))] *)
Definition rtpToDuration (t : TrackSynchronizer) (x : Z) : Z :=
  F64.to_int64 (F64.Round (F64.mul (F64.of_int x) (rtpDuration t))).

Definition GetFrameDuration (t : TrackSynchronizer) : Z :=
  let frameDurationRTP := getFrameDurationRTP t in
  rtpToDuration t frameDurationRTP.

Definition getElapsed (t : TrackSynchronizer) (ts : Z) : Z :=
  rtpToDuration t (wrap64 (ts - firstTS t)).

(** ** adjust *)

(** [for ts < t.lastTS { ts += uint32Overflow }], with the int64 addition
    wrapping.  [None] is a loop that is still running when the fuel is spent. *)
Fixpoint unwrap_loop (fuel : nat) (last ts : Z) : option Z :=
  if ts <? last then
    match fuel with
    | O => None
    | S fuel' => unwrap_loop fuel' last (wrap64 (ts + uint32Overflow))
    end
  else Some ts.

(** Enough iterations for every run of the loop that ends at all
    (see [unwrap_loop_fuel_adequate]). *)
Definition unwrap_fuel (last ts : Z) : nat :=
  Z.to_nat ((last - ts) / uint32Overflow + 1).

Definition unwrapTS (last ts : Z) : option Z :=
  unwrap_loop (unwrap_fuel last ts) last ts.

(** The condition of the reset branch, on the packet whose sequence number
    already carries [snOffset]. *)
Definition needsReset (t : TrackSynchronizer) (sn : Z) : bool :=
  negb (lastTS t =? 0)
  && (maxSNDropout <? u16 (sn - lastSN t))
  && (maxSNDropout <? u16 (lastSN t - sn)).

(** [adjust] returns the new track state, the packet as the call leaves it,
    and the Go results [(ts, pts, valid)]; [None] when the unwrap loop does
    not end. *)
Definition adjust (t : TrackSynchronizer) (pkt : Packet)
  : option (TrackSynchronizer * Packet * (Z * Z * bool)) :=
  (* adjust sequence number and reset if needed *)
  let pkt := setSequenceNumber pkt (u16 (SequenceNumber pkt + snOffset t)) in
  if needsReset t (SequenceNumber pkt) then
    (* reset sequence numbers *)
    let t := set_snOffset t
               (u16 (snOffset t + u16 (u16 (lastSN t + 1) - SequenceNumber pkt))) in
    let pkt := setSequenceNumber pkt (u16 (lastSN t + 1)) in
    (* reset RTP timestamps *)
    let frameDuration := getFrameDurationRTP t in
    let tsOffset := wrap64 (wrap64 (inserted t + 1) * frameDuration) in
    let ts := wrap64 (lastTS t + tsOffset) in
    let t := set_firstTS t (wrap64 (firstTS t + wrap64 (Timestamp pkt - ts))) in
    let pts := wrap64 (lastPTS t + rtpToDuration t tsOffset) in
    Some (t, pkt, (ts, pts, false))
  else
    (* adjust timestamp for uint32 wrap *)
    match unwrapTS (lastTS t) (Timestamp pkt) with
    | None => None
    | Some ts =>
        (* use the previous pts if this packet has the same timestamp *)
        if ts =? lastTS t then Some (t, pkt, (ts, lastPTS t, lastValid t))
        else Some (t, pkt, (ts, wrap64 (getElapsed t ts + ptsOffset t), true))
    end.

(** ** GetPTS *)

Definition GetPTS (t : TrackSynchronizer) (pkt : Packet)
  : option (TrackSynchronizer * Packet * (Z * option error)) :=
  match adjust t pkt with
  | None => None
  | Some (t, pkt, (ts, pts, valid)) =>
      let t := set_inserted t 0 in
      (* update frame duration if this is a new frame and both packets are valid *)
      let t :=
        if valid && lastValid t && (SequenceNumber pkt =? u16 (lastSN t + 1))
        then set_frameDuration t (wrap64 (ts - lastTS t))
        else t in
      (* if past end time, return EOF *)
      if (0 <? maxPTS t) && ((maxPTS t <? pts) || negb valid) then
        Some (t, pkt, (0, Some EOF))
      else
        (* update previous values *)
        let t := set_lastTS t ts in
        let t := set_lastSN t (SequenceNumber pkt) in
        let t := set_lastPTS t pts in
        let t := set_lastValid t valid in
        Some (t, pkt, (pts, None))
  end.

(** ** Frame insertion *)

(** [next = None] is Go's [nil].  The results are the track, [pkt], [next]
    as the call leaves them, and [(pts, inserted)].  [pkt] and [next] are
    taken to be different packets. *)
Definition insertFrameBefore (t : TrackSynchronizer) (pkt : Packet) (next : option Packet)
  : option (TrackSynchronizer * Packet * option Packet * (Z * bool)) :=
  let t := set_inserted t (wrap64 (inserted t + 1)) in
  let t := set_snOffset t (u16 (snOffset t + 1)) in
  let t := set_lastValid t false in
  let frameDurationRTP := getFrameDurationRTP t in
  let ts := wrap64 (lastTS t + wrap64 (inserted t * frameDurationRTP)) in
  let finish (t : TrackSynchronizer) (next : option Packet) :=
    (* update packet *)
    let pkt := setSequenceNumber pkt (u16 (lastSN t + u16 (inserted t))) in
    let pkt := setTimestamp pkt (u32 ts) in
    let pts :=
      wrap64 (lastPTS t +
              F64.to_int64 (F64.Round
                (F64.mul (F64.mul (F64.of_int frameDurationRTP) (rtpDuration t))
                         (F64.of_int (inserted t))))) in
    Some (t, pkt, next, (pts, true)) in
  match next with
  | Some nxt =>
      match adjust t nxt with
      | None => None
      | Some (t, nxt, (nextTS, _, _)) =>
          if nextTS <? wrap64 (ts + frameDurationRTP) then
            (* too long, drop *)
            Some (t, pkt, Some nxt, (0, false))
          else finish t (Some nxt)
      end
  | None => finish t None
  end.

Definition InsertFrameBefore := insertFrameBefore.

Definition InsertFrame (t : TrackSynchronizer) (pkt : Packet)
  : option (TrackSynchronizer * Packet * Z) :=
  match insertFrameBefore t pkt None with
  | Some (t, pkt, _, (pts, _)) => Some (t, pkt, pts)
  | None => None
  end.

(** ** Sender reports *)

Record SenderReport := mkSenderReport {
  NTPTime : Z;   (* uint64 *)
  RTPTime : Z    (* uint32 *)
}.

Section SenderReports.

(** [time.Time], and the two library calls [onSenderReport] makes on it:
    [mediatransportutil.NtpTime(x).Time()] and [a.Sub(b)], a
    [time.Duration]. *)
Variable Time : Type.
Variable NtpTime_Time : Z -> Time.
Variable Time_Sub : Time -> Time -> Z.

(** The damping of large drifts is commented out in the source; what runs
    is the comparison and the addition. *)
Definition onSenderReport (t : TrackSynchronizer) (pkt : SenderReport)
    (pts : Z) (ntpStart : Time) : TrackSynchronizer :=
  let expected := Time_Sub (NtpTime_Time (NTPTime pkt)) ntpStart in
  if negb (pts =? expected) then
    let drift := wrap64 (expected - pts) in
    set_ptsOffset t (wrap64 (ptsOffset t + drift))
  else t.

End SenderReports.

(** ** Names for the parts of the methods, and example tracks *)

(** The sequence number after [pkt.SequenceNumber += t.snOffset]. *)
Definition correctedSN (t : TrackSynchronizer) (pkt : Packet) : Z :=
  u16 (SequenceNumber pkt + snOffset t).

(** [tsOffset] of the reset branch. *)
Definition resetTsOffset (t : TrackSynchronizer) : Z :=
  wrap64 (wrap64 (inserted t + 1) * getFrameDurationRTP t).

(** The track state the reset branch leaves. *)
Definition resetState (t : TrackSynchronizer) (pkt : Packet) : TrackSynchronizer :=
  set_firstTS
    (set_snOffset t
       (u16 (snOffset t + u16 (u16 (lastSN t + 1) - correctedSN t pkt))))
    (wrap64 (firstTS t
             + wrap64 (Timestamp pkt - wrap64 (lastTS t + resetTsOffset t)))).

(** What every state built by the constructor and the methods satisfies
    (see [Built_TrackInv]). *)
Definition TrackInv (t : TrackSynchronizer) : Prop :=
  0 <= frameDuration t /\ 0 <= defaultFrameDuration t
  /\ 0 <= inserted t /\ 0 <= lastTS t.

(** The projection of the reset branch, [lastTS + (inserted+1) * frameDuration],
    is an int64. *)
Definition resetFits (t : TrackSynchronizer) : Prop :=
  lastTS t + (inserted t + 1) * getFrameDurationRTP t < 2 ^ 63.

(** Two concrete tracks used in the examples. *)
Definition audio48k : TrackSynchronizer :=
  newTrackSynchronizer (mkTrackRemote "audio" 48000 RTPCodecTypeAudio).
Definition video90k : TrackSynchronizer :=
  newTrackSynchronizer (mkTrackRemote "video" 90000 RTPCodecTypeVideo).

(** [feed t ps]: [GetPTS] on each packet of [ps] in turn; the results, and
    the track after the last call. *)
Fixpoint feed (t : TrackSynchronizer) (ps : list Packet)
  : option (list (Z * option error) * TrackSynchronizer) :=
  match ps with
  | [] => Some ([], t)
  | p :: ps =>
      match GetPTS t p with
      | None => None
      | Some (t, _, r) =>
          match feed t ps with
          | None => None
          | Some (rs, t) => Some (r :: rs, t)
          end
      end
  end.

(** The state after two audio packets 960 units apart. *)
Definition audio_two_packets : TrackSynchronizer :=
  {| trackID := "audio";
     rtpDuration := rtpDuration audio48k;
     frameDuration := 960; defaultFrameDuration := 960;
     startedAt := 0; firstTS := 1000; maxPTS := 0;
     lastSN := 2; lastTS := 1960; lastPTS := 20000000; lastValid := true;
     inserted := 0; snOffset := 0; ptsOffset := 0; lastPTSDrift := 0 |}.

(** The condition under which [GetPTS] records a frame duration. *)
Definition learnsDuration (t : TrackSynchronizer) (pkt' : Packet) (valid : bool) : bool :=
  valid && lastValid t && (SequenceNumber pkt' =? u16 (lastSN t + 1)).

(** The condition under which [GetPTS] returns [io.EOF]. *)
Definition pastEnd (t : TrackSynchronizer) (pts : Z) (valid : bool) : bool :=
  (0 <? maxPTS t) && ((maxPTS t <? pts) || negb valid).

(** A track whose last accepted packet had sequence number 100. *)
Definition track_lastSN_100 : TrackSynchronizer :=
  {| trackID := "audio";
     rtpDuration := rtpDuration audio48k;
     frameDuration := 960; defaultFrameDuration := 960;
     startedAt := 0; firstTS := 1000; maxPTS := 0;
     lastSN := 100; lastTS := 96040; lastPTS := 1980000000; lastValid := true;
     inserted := 0; snOffset := 0; ptsOffset := 0; lastPTSDrift := 0 |}.

(** The two-packet audio track with an end time of 30 ms. *)
Definition audio_ending : TrackSynchronizer :=
  {| trackID := "audio";
     rtpDuration := rtpDuration audio48k;
     frameDuration := 960; defaultFrameDuration := 960;
     startedAt := 0; firstTS := 1000; maxPTS := 30000000;
     lastSN := 2; lastTS := 1960; lastPTS := 20000000; lastValid := true;
     inserted := 0; snOffset := 0; ptsOffset := 0; lastPTSDrift := 0 |}.

(** The three assignments that open [insertFrameBefore]. *)
Definition insertBump (t : TrackSynchronizer) : TrackSynchronizer :=
  set_lastValid
    (set_snOffset (set_inserted t (wrap64 (inserted t + 1)))
                  (u16 (snOffset t + 1)))
    false.

(** [ts] of the synthetic frame. *)
Definition insertTS (t : TrackSynchronizer) : Z :=
  wrap64 (lastTS t + wrap64 (wrap64 (inserted t + 1) * getFrameDurationRTP t)).

(** The packet fields and the PTS of a frame that is inserted. *)
Definition insertedPacket (t : TrackSynchronizer) : Packet :=
  mkPacket (u16 (lastSN t + u16 (wrap64 (inserted t + 1)))) (u32 (insertTS t)).

Definition insertPTS (t : TrackSynchronizer) : Z :=
  wrap64 (lastPTS t +
          F64.to_int64 (F64.Round
            (F64.mul (F64.mul (F64.of_int (getFrameDurationRTP t)) (rtpDuration t))
                     (F64.of_int (wrap64 (inserted t + 1)))))).

(** The state after two video packets 3000 units apart. *)
Definition video_two_packets : TrackSynchronizer :=
  {| trackID := "video";
     rtpDuration := rtpDuration video90k;
     frameDuration := 3000; defaultFrameDuration := 3750;
     startedAt := 0; firstTS := 1000; maxPTS := 0;
     lastSN := 2; lastTS := 4000; lastPTS := 33333333; lastValid := true;
     inserted := 0; snOffset := 0; ptsOffset := 0; lastPTSDrift := 0 |}.

(** The first [n] packets of an audio stream without loss: sequence
    numbers from 1, timestamps from 1000 in steps of 960. *)
Definition audio_stream (n : nat) : list Packet :=
  map (fun i => mkPacket (Z.of_nat i + 1) (1000 + 960 * Z.of_nat i)) (seq 0 n).

(** The states a caller can build: a new track, then any sequence of the
    methods, as long as the reset projection and the insertion counter stay
    within int64. *)
Inductive Built : TrackSynchronizer -> Prop :=
  | Built_new track :
      is_u32 (ClockRate track) -> Built (newTrackSynchronizer track)
  | Built_Initialize now start t pkt :
      Built t -> Built (Initialize now start t pkt)
  | Built_GetPTS t pkt t' pkt' r :
      Built t -> resetFits t -> is_u32 (Timestamp pkt) ->
      GetPTS t pkt = Some (t', pkt', r) -> Built t'
  | Built_insertFrameBefore t pkt next t' pkt' next' r :
      Built t -> is_i64 (inserted t + 1) ->
      insertFrameBefore t pkt next = Some (t', pkt', next', r) -> Built t'
  | Built_onSenderReport (Time : Type) NtpTime_Time Time_Sub t pkt pts ntpStart :
      Built t ->
      Built (onSenderReport Time NtpTime_Time Time_Sub t pkt pts ntpStart).

(** ** The remaining functions of track.go *)

Definition absGreater (a b : Z) : bool :=
  (b <? a) || (a <? wrap64 (- b)).

Definition inDelta (a b delta : Z) : bool :=
  if b <? a then wrap64 (a - b) <=? delta
  else wrap64 (b - a) <=? delta.

(** [getSenderReportPTS]: [now] is [time.Now().UnixNano()].  The track is
    only read.  [None] when the loop does not end. *)
Definition getSenderReportPTS (now : Z) (t : TrackSynchronizer) (pkt : SenderReport)
  : option (Z * bool) :=
  match unwrapTS (wrap64 (lastTS t - uint32Overflow / 2)) (RTPTime pkt) with
  | None => None
  | Some ts =>
      let elapsed := getElapsed t ts in
      let expected := wrap64 (now - startedAt t) in
      Some (wrap64 (elapsed + ptsOffset t), inDelta elapsed expected 1000000000)
  end.

(** [n] calls of [InsertFrame] in a row, each on its own blank packet; the
    packets as the calls leave them, oldest first, and the track. *)
Fixpoint insertFrames (n : nat) (t : TrackSynchronizer)
  : option (list Packet * TrackSynchronizer) :=
  match n with
  | O => Some ([], t)
  | S n =>
      match InsertFrame t (mkPacket 0 0) with
      | None => None
      | Some (t, pkt, _) =>
          match insertFrames n t with
          | None => None
          | Some (pkts, t) => Some (pkt :: pkts, t)
          end
      end
  end.

(** A track late in a long stream: [lastTS] is just below 2^32. *)
Definition audio_before_wrap : TrackSynchronizer :=
  {| trackID := "audio";
     rtpDuration := rtpDuration audio48k;
     frameDuration := 960; defaultFrameDuration := 960;
     startedAt := 0; firstTS := 1000; maxPTS := 0;
     lastSN := 2; lastTS := 4294966816; lastPTS := 89478454500000;
     lastValid := true;
     inserted := 0; snOffset := 0; ptsOffset := 0; lastPTSDrift := 0 |}.

(** * Properties *)

(** ** Fixed-width arithmetic *)

Lemma wrap64_range z : is_i64 (wrap64 z).
Proof.
  unfold is_i64, wrap64.
  pose proof (Z.mod_pos_bound (z + 2 ^ 63) (2 ^ 64)). lia.
Qed.

Lemma wrap64_small z : is_i64 z -> wrap64 z = z.
Proof.
  unfold is_i64, wrap64. intros H.
  rewrite Z.mod_small; lia.
Qed.

Lemma wrap64_mod z : wrap64 z mod 2 ^ 64 = z mod 2 ^ 64.
Proof.
  unfold wrap64. rewrite Zminus_mod_idemp_l. f_equal. lia.
Qed.

Lemma wrap64_congr a b : a mod 2 ^ 64 = b mod 2 ^ 64 -> wrap64 a = wrap64 b.
Proof.
  unfold wrap64. intros H.
  rewrite <- (Zplus_mod_idemp_l a), <- (Zplus_mod_idemp_l b), H. reflexivity.
Qed.

Lemma wrap64_add_l a b : wrap64 (wrap64 a + b) = wrap64 (a + b).
Proof.
  apply wrap64_congr.
  rewrite <- Zplus_mod_idemp_l, wrap64_mod, Zplus_mod_idemp_l. reflexivity.
Qed.

Lemma wrap64_add_r a b : wrap64 (a + wrap64 b) = wrap64 (a + b).
Proof.
  rewrite (Z.add_comm a), wrap64_add_l. f_equal. lia.
Qed.

Lemma wrap64_mul_l a b : wrap64 (wrap64 a * b) = wrap64 (a * b).
Proof.
  apply wrap64_congr.
  rewrite <- Zmult_mod_idemp_l, wrap64_mod, Zmult_mod_idemp_l. reflexivity.
Qed.

(** Two int64 values that differ by a multiple of 2^64 are equal. *)
Lemma wrap64_zero_iff a b :
  is_i64 a -> is_i64 b -> (wrap64 (a - b) = 0 <-> a = b).
Proof.
  unfold is_i64. intros Ha Hb. split.
  - intros H.
    assert (Hm : (a - b) mod 2 ^ 64 = 0) by (rewrite <- wrap64_mod, H; reflexivity).
    apply Z.mod_divide in Hm; [| lia].
    destruct Hm as [k Hk].
    assert (k = 0) by nia. lia.
  - intros ->. rewrite Z.sub_diag. reflexivity.
Qed.

Lemma u16_range z : is_u16 (u16 z).
Proof. unfold is_u16, u16. apply Z.mod_pos_bound. lia. Qed.

Lemma u16_small z : is_u16 z -> u16 z = z.
Proof. unfold is_u16, u16. intros. apply Z.mod_small. lia. Qed.

Lemma u16_add_l a b : u16 (u16 a + b) = u16 (a + b).
Proof. unfold u16. apply Zplus_mod_idemp_l. Qed.

Lemma u16_add_r a b : u16 (a + u16 b) = u16 (a + b).
Proof. unfold u16. apply Zplus_mod_idemp_r. Qed.

Lemma u16_sub_l a b : u16 (u16 a - b) = u16 (a - b).
Proof. unfold u16. apply Zminus_mod_idemp_l. Qed.

(** ** float64 facts for the constructor *)

Lemma digits2_pos_size p : digits2_pos p = Pos.size p.
Proof. induction p; simpl; congruence. Qed.

Lemma digits2_pos_bounds p :
  2 ^ (Z.pos (digits2_pos p) - 1) <= Z.pos p < 2 ^ Z.pos (digits2_pos p).
Proof.
  rewrite digits2_pos_size.
  pose proof (Pos.size_gt p) as Hgt. pose proof (Pos.size_le p) as Hle.
  apply Pos2Z.pos_lt_pos in Hgt. apply Pos2Z.pos_le_pos in Hle.
  rewrite Pos2Z.inj_pow in Hgt, Hle.
  split; [| exact Hgt].
  assert (E : 2 ^ Z.pos (Pos.size p) = 2 * 2 ^ (Z.pos (Pos.size p) - 1)).
  { rewrite <- Z.pow_succ_r by lia. f_equal. lia. }
  rewrite E in Hle. lia.
Qed.

Lemma Zdigits2_le m n : 0 <= m < 2 ^ n -> 0 <= n -> 0 <= Zdigits2 m <= n.
Proof.
  intros Hm Hn. destruct m as [| p | p]; simpl; try lia.
  pose proof (digits2_pos_bounds p) as [Hlo _].
  split; [lia |].
  destruct (Z.le_gt_cases (Z.pos (digits2_pos p)) n) as [H | H]; [exact H |].
  assert (2 ^ n <= 2 ^ (Z.pos (digits2_pos p) - 1)) by (apply Z.pow_le_mono_r; lia).
  lia.
Qed.

Lemma digits2_pos_iter_xO c d :
  digits2_pos (Pos.iter xO c d) = (digits2_pos c + d)%positive.
Proof.
  induction d as [| d IH] using Pos.peano_ind.
  - simpl. lia.
  - rewrite Pos.iter_succ. simpl. rewrite IH. lia.
Qed.

Lemma shr_1_bounds mrs :
  0 <= shr_m mrs -> 0 <= shr_m (shr_1 mrs) <= shr_m mrs.
Proof.
  destruct mrs as [m r s]. cbn [shr_m]. intros H.
  destruct m as [| [p | p |] | p]; cbn; lia.
Qed.

Lemma iter_pos_shr_1_bounds p : forall mrs,
  0 <= shr_m mrs ->
  0 <= shr_m (iter_pos shr_1 p mrs) <= shr_m mrs.
Proof.
  induction p as [p IH | p IH |]; intros mrs H; cbn [iter_pos].
  - pose proof (shr_1_bounds mrs H) as H1.
    pose proof (IH _ (proj1 H1)) as H2.
    pose proof (IH _ (proj1 H2)) as H3. lia.
  - pose proof (IH _ H) as H2.
    pose proof (IH _ (proj1 H2)) as H3. lia.
  - apply shr_1_bounds, H.
Qed.

Lemma shr_fexp_bounds m e l mrs e' :
  0 <= m ->
  shr_fexp F64.prec F64.emax m e l = (mrs, e') ->
  0 <= shr_m mrs <= m
  /\ (e' = e \/ e' = fexp F64.prec F64.emax (Zdigits2 m + e)).
Proof.
  intros Hm. unfold shr_fexp, shr.
  assert (Hr : shr_m (shr_record_of_loc m l) = m)
    by (destruct l as [| []]; reflexivity).
  destruct (fexp F64.prec F64.emax (Zdigits2 m + e) - e) as [| p | p] eqn:E;
    intros [= <- <-]; rewrite ?Hr; try (split; [lia | left; reflexivity]).
  split.
  - pose proof (iter_pos_shr_1_bounds p (shr_record_of_loc m l)) as H.
    rewrite Hr in H. apply H, Hm.
  - right. lia.
Qed.

Lemma round_nearest_even_bounds m l :
  m <= round_nearest_even m l <= m + 1.
Proof.
  unfold round_nearest_even. destruct l as [| []]; try lia.
  destruct (Z.even m); lia.
Qed.

(** Rounding a small non-negative quotient gives zero or a positive finite
    number below 2^63 with a non-positive exponent. *)
Lemma binary_round_aux_small mz ez lz :
  0 <= mz < 2 ^ 60 -> ez <= -20 ->
  match binary_round_aux F64.prec F64.emax false mz ez lz with
  | S754_zero _ => True
  | S754_finite false m e => e <= 0 /\ Z.pos m < 2 ^ 63
  | _ => False
  end.
Proof.
  intros Hm He. unfold binary_round_aux.
  destruct (shr_fexp F64.prec F64.emax mz ez lz) as [mrs1 e1] eqn:E1.
  destruct (shr_fexp_bounds _ _ _ _ _ (proj1 Hm) E1) as (Hb1 & He1).
  set (r := round_nearest_even (shr_m mrs1) (loc_of_shr_record mrs1)).
  pose proof (round_nearest_even_bounds (shr_m mrs1) (loc_of_shr_record mrs1)) as Hr.
  fold r in Hr.
  destruct (shr_fexp F64.prec F64.emax r e1 loc_Exact) as [mrs2 e2] eqn:E2.
  assert (Hr0 : 0 <= r) by lia.
  destruct (shr_fexp_bounds _ _ _ _ _ Hr0 E2) as (Hb2 & He2).
  pose proof (Zdigits2_le mz 60 Hm ltac:(lia)) as Hd1.
  assert (Hr61 : 0 <= r < 2 ^ 61) by lia.
  pose proof (Zdigits2_le r 61 Hr61 ltac:(lia)) as Hd2.
  unfold fexp, emin, F64.prec, F64.emax in *.
  assert (e2 <= -5) by lia.
  destruct (shr_m mrs2) as [| m | m] eqn:Em; [exact I | | lia].
  replace (e2 <=? 1024 - 53) with true by (symmetry; apply Z.leb_le; lia).
  lia.
Qed.

Lemma to_int64_nonneg x :
  match x with
  | S754_zero _ => True
  | S754_finite false m e => e <= 0 /\ Z.pos m < 2 ^ 63
  | _ => False
  end -> 0 <= F64.to_int64 x.
Proof.
  destruct x as [s | s | | [|] m e]; try contradiction; intros H.
  - cbn. lia.
  - destruct H as (He & Hm). unfold F64.to_int64. cbn [cond_Zopp].
    set (v := if 0 <=? e then Z.pos m * 2 ^ e else Z.pos m / 2 ^ (- e)).
    assert (Hv : 0 <= v <= Z.pos m).
    { subst v. destruct (0 <=? e) eqn:E.
      - apply Z.leb_le in E. replace e with 0 by lia. lia.
      - assert (0 < 2 ^ (- e)) by (apply Z.pow_pos_nonneg; lia).
        split; [apply Z.div_pos; lia |].
        apply Z.div_le_upper_bound; nia. }
    destruct ((- 2 ^ 63 <=? v) && (v <? 2 ^ 63)) eqn:E; [lia |].
    apply andb_false_iff in E. destruct E as [E | E];
      [apply Z.leb_gt in E | apply Z.ltb_ge in E]; lia.
Qed.

(** [float64(c)] for a positive integer of fewer than 53 bits is exact:
    the integer shifted up to 53 bits. *)
Lemma of_int_pos c :
  Z.pos (digits2_pos c) < 53 ->
  F64.of_int (Z.pos c)
  = S754_finite false
      (Pos.iter xO c (Z.to_pos (53 - Z.pos (digits2_pos c))))
      (Z.pos (digits2_pos c) - 53).
Proof.
  intros Hd. unfold F64.of_int, binary_normalize, binary_round.
  assert (Hf : fexp F64.prec F64.emax (Z.pos (digits2_pos c) + 0)
               = Z.pos (digits2_pos c) - 53)
    by (unfold fexp, emin, F64.prec, F64.emax; lia).
  rewrite Hf. unfold shl_align.
  destruct (Z.pos (digits2_pos c) - 53 - 0) as [| d | d] eqn:E; try lia.
  replace (Z.to_pos (53 - Z.pos (digits2_pos c))) with d by lia.
  unfold binary_round_aux, shr_fexp. cbn [Zdigits2 shr_record_of_loc].
  rewrite digits2_pos_iter_xO.
  assert (H0 : fexp F64.prec F64.emax
                 (Z.pos (digits2_pos c + d) + (Z.pos (digits2_pos c) - 53))
               - (Z.pos (digits2_pos c) - 53) = 0)
    by (unfold fexp, emin, F64.prec, F64.emax; lia).
  rewrite H0. cbn [shr shr_m loc_of_shr_record round_nearest_even
                   Zdigits2 shr_record_of_loc].
  rewrite digits2_pos_iter_xO, H0. cbn [shr shr_m].
  replace (Z.pos (digits2_pos c) - 53 <=? F64.emax - F64.prec) with true
    by (symmetry; apply Z.leb_le; unfold F64.emax, F64.prec; lia).
  reflexivity.
Qed.

Lemma SFdiv_core_small m1 e1 m2 e2 :
  Z.pos (digits2_pos m1) = 53 -> Z.pos (digits2_pos m2) = 53 ->
  -100 <= e1 - e2 <= 33 ->
  exists q l,
    SFdiv_core_binary F64.prec F64.emax (Z.pos m1) e1 (Z.pos m2) e2
    = (q, e1 - e2 - 53, l)
    /\ 0 <= q < 2 ^ 60.
Proof.
  intros H1 H2 He. unfold SFdiv_core_binary. cbn [Zdigits2]. rewrite H1, H2.
  cbv zeta.
  assert (He' : Z.min (fexp F64.prec F64.emax (53 + e1 - (53 + e2))) (e1 - e2)
                = e1 - e2 - 53)
    by (unfold fexp, emin, F64.prec, F64.emax; lia).
  rewrite He'. replace (e1 - e2 - (e1 - e2 - 53)) with 53 by lia.
  destruct (Z.div_eucl (Z.shiftl (Z.pos m1) 53) (Z.pos m2)) as [q r] eqn:E.
  exists q, (new_location (Z.pos m2) r). split; [reflexivity |].
  assert (Hq : q = Z.shiftl (Z.pos m1) 53 / Z.pos m2)
    by (unfold Z.div; rewrite E; reflexivity).
  rewrite Z.shiftl_mul_pow2 in Hq by lia.
  pose proof (digits2_pos_bounds m1) as B1.
  pose proof (digits2_pos_bounds m2) as B2.
  rewrite H1 in B1. rewrite H2 in B2.
  change (2 ^ (53 - 1)) with 4503599627370496 in *.
  change (2 ^ 53) with 9007199254740992 in *.
  subst q. split.
  - apply Z.div_pos; lia.
  - apply Z.div_lt_upper_bound; [lia |].
    change (2 ^ 60) with 1152921504606846976. nia.
Qed.

(** The default frame duration of a new track is never negative. *)
Lemma defaultFrameDuration_nonneg track :
  is_u32 (ClockRate track) ->
  0 <= defaultFrameDuration (newTrackSynchronizer track).
Proof.
  intros [Hlo Hhi].
  assert (H : forall k my ey,
             F64.of_int k = S754_finite false my ey ->
             Z.pos (digits2_pos my) = 53 -> -49 <= ey <= -40 ->
             0 <= F64.to_int64 (F64.div (F64.of_int (ClockRate track)) (F64.of_int k))).
  { intros k my ey Hk Hmy Hey. rewrite Hk.
    destruct (ClockRate track) as [| c | c]; [vm_compute; discriminate | | lia].
    pose proof (Zdigits2_le (Z.pos c) 32 (conj Hlo Hhi) ltac:(lia)) as Hd.
    cbn [Zdigits2] in Hd.
    rewrite of_int_pos by lia.
    apply to_int64_nonneg. unfold F64.div, SFdiv.
    destruct (SFdiv_core_small
                (Pos.iter xO c (Z.to_pos (53 - Z.pos (digits2_pos c))))
                (Z.pos (digits2_pos c) - 53) my ey)
      as (q & l & -> & Hq); [| exact Hmy | lia |].
    - rewrite digits2_pos_iter_xO. lia.
    - cbn [xorb]. apply binary_round_aux_small; [exact Hq | lia]. }
  unfold newTrackSynchronizer. cbn [defaultFrameDuration].
  destruct (Kind track).
  - apply (H 24 6755399441055744%positive (-48)); [reflexivity | reflexivity | lia].
  - apply (H 50 7036874417766400%positive (-47)); [reflexivity | reflexivity | lia].
  - apply (H 24 6755399441055744%positive (-48)); [reflexivity | reflexivity | lia].
Qed.

(** ** The unwrap loop *)

(** The loop leaves with a timestamp that is not below [last]. *)
Lemma unwrap_loop_ge fuel : forall last ts r,
  unwrap_loop fuel last ts = Some r -> last <= r.
Proof.
  induction fuel as [| fuel IH]; intros last ts r H; cbn [unwrap_loop] in H;
    destruct (ts <? last) eqn:E.
  - discriminate H.
  - apply Z.ltb_ge in E. injection H as <-. exact E.
  - eapply IH, H.
  - apply Z.ltb_ge in E. injection H as <-. exact E.
Qed.

(** While no addition overflows, [n] rounds of fuel cover a distance of
    [n * 2^32]. *)
Lemma unwrap_loop_terminates fuel : forall last ts,
  is_i64 ts -> last <= 2 ^ 63 - uint32Overflow ->
  last - ts <= Z.of_nat fuel * uint32Overflow ->
  exists r, unwrap_loop fuel last ts = Some r
            /\ is_i64 r /\ ts <= r /\ (r - ts) mod uint32Overflow = 0
            /\ (ts < last -> r < last + uint32Overflow).
Proof.
  unfold uint32Overflow, is_i64.
  induction fuel as [| fuel IH]; intros last ts Hts Hlast Hd;
    cbn [unwrap_loop]; unfold uint32Overflow; destruct (ts <? last) eqn:E.
  - apply Z.ltb_lt in E. lia.
  - exists ts. rewrite Z.sub_diag. apply Z.ltb_ge in E.
    repeat split; try lia; try reflexivity.
  - apply Z.ltb_lt in E.
    rewrite wrap64_small by (unfold is_i64; lia).
    destruct (IH last (ts + 4294967296)) as (r & Hr & Hri & Hle & Hmod & Hlt);
      try lia.
    exists r. repeat split; try lia; try assumption.
    + replace (r - ts) with (r - (ts + 4294967296) + 1 * 4294967296) by lia.
      rewrite Z.mod_add by lia. exact Hmod.
    + intros _. destruct (Z.lt_ge_cases (ts + 4294967296) last) as [Hc | Hc].
      * auto.
      * assert (r = ts + 4294967296); [| lia].
        clear IH. destruct fuel; cbn [unwrap_loop] in Hr;
          (destruct (ts + 4294967296 <? last) eqn:E2;
           [apply Z.ltb_lt in E2; lia | congruence]).
  - exists ts. rewrite Z.sub_diag. apply Z.ltb_ge in E.
    repeat split; try lia; try reflexivity.
Qed.

Lemma unwrap_loop_done fuel last ts :
  last <= ts -> unwrap_loop fuel last ts = Some ts.
Proof.
  intros H. destruct fuel; cbn [unwrap_loop];
    (destruct (ts <? last) eqn:E; [apply Z.ltb_lt in E; lia | reflexivity]).
Qed.

Lemma multiple_between a : a mod uint32Overflow = 0 -> 0 < a -> uint32Overflow <= a.
Proof.
  unfold uint32Overflow. intros Hm Hpos.
  apply Z.mod_divide in Hm; [| lia]. destruct Hm as [q Hq]. nia.
Qed.

(** A run that ends never went through an int64 overflow: its result is
    the start plus a multiple of 2^32, taken in Z. *)
Lemma unwrap_loop_sound fuel : forall last ts r,
  is_i64 ts -> unwrap_loop fuel last ts = Some r ->
  is_i64 r /\ ts <= r /\ (r - ts) mod uint32Overflow = 0.
Proof.
  induction fuel as [| fuel IH]; intros last ts r Hts H.
  - cbn [unwrap_loop] in H. destruct (ts <? last); [discriminate |].
    injection H as <-. rewrite Z.sub_diag. auto with zarith.
  - pose proof (unwrap_loop_ge _ _ _ _ H) as Hge.
    cbn [unwrap_loop] in H. destruct (ts <? last) eqn:E.
    + apply Z.ltb_lt in E.
      destruct (IH _ _ _ (wrap64_range _) H) as (Hr & Hle & Hmod).
      assert (Hm : (r - ts) mod uint32Overflow = 0).
      { destruct (Z.lt_ge_cases (ts + uint32Overflow) (2 ^ 63)) as [Hc | Hc].
        - rewrite wrap64_small in Hmod
            by (unfold is_i64, uint32Overflow in *; lia).
          replace (r - ts) with (r - (ts + uint32Overflow) + 1 * uint32Overflow) by lia.
          rewrite Z.mod_add by (unfold uint32Overflow; lia). exact Hmod.
        - assert (Hw : wrap64 (ts + uint32Overflow) = ts + uint32Overflow - 2 ^ 64).
          { unfold wrap64, is_i64, uint32Overflow in *.
            replace (ts + 4294967296 + 2 ^ 63)
              with (ts + 4294967296 - 2 ^ 63 + 1 * 2 ^ 64) by lia.
            rewrite Z.mod_add by lia. rewrite Z.mod_small; lia. }
          rewrite Hw in Hmod.
          replace (r - ts)
            with (r - (ts + uint32Overflow - 2 ^ 64)
                  + (1 - 4294967296) * uint32Overflow)
            by (unfold uint32Overflow; lia).
          rewrite Z.mod_add by (unfold uint32Overflow; lia). exact Hmod. }
      pose proof (multiple_between _ Hm) as Hk.
      repeat split; try apply Hr; try lia; try exact Hm.
    + injection H as <-. rewrite Z.sub_diag. auto with zarith.
Qed.

Lemma unwrap_loop_no_overflow fuel last ts r :
  is_i64 ts -> ts < last -> unwrap_loop fuel last ts = Some r ->
  ts + uint32Overflow < 2 ^ 63.
Proof.
  intros Hts Hlt H.
  pose proof (unwrap_loop_ge _ _ _ _ H).
  destruct (unwrap_loop_sound _ _ _ _ Hts H) as (Hr & _ & Hm).
  pose proof (multiple_between _ Hm). unfold is_i64 in Hr. lia.
Qed.

Lemma unwrap_loop_more_fuel n : forall m last ts r,
  is_i64 ts -> unwrap_loop n last ts = Some r ->
  last - ts <= Z.of_nat m * uint32Overflow ->
  unwrap_loop m last ts = Some r.
Proof.
  induction n as [| n IH]; intros m last ts r Hts H Hm.
  - cbn [unwrap_loop] in H. destruct (ts <? last) eqn:E; [discriminate |].
    injection H as <-. apply unwrap_loop_done. apply Z.ltb_ge in E. exact E.
  - destruct (Z.lt_ge_cases ts last) as [Hlt | Hge].
    + pose proof (unwrap_loop_no_overflow _ _ _ _ Hts Hlt H) as Hno.
      cbn [unwrap_loop] in H. destruct (ts <? last) eqn:E;
        [| apply Z.ltb_ge in E; lia].
      destruct m as [| m]; [unfold uint32Overflow in *; lia |].
      cbn [unwrap_loop]. rewrite E.
      assert (Hi : is_i64 (ts + uint32Overflow))
        by (unfold is_i64, uint32Overflow in *; lia).
      rewrite wrap64_small in * by exact Hi.
      apply IH; [exact Hi | exact H |].
      rewrite Nat2Z.inj_succ in Hm. lia.
    + rewrite unwrap_loop_done in H by exact Hge. injection H as <-.
      apply unwrap_loop_done. exact Hge.
Qed.

Lemma unwrap_fuel_covers last ts :
  last - ts <= Z.of_nat (unwrap_fuel last ts) * uint32Overflow.
Proof.
  unfold unwrap_fuel.
  pose proof (Z.mul_succ_div_gt (last - ts) uint32Overflow) as H.
  unfold uint32Overflow in *.
  set (q := (last - ts) / 4294967296) in *.
  lia.
Qed.

(** The fuel [unwrapTS] gives the loop is enough: if any amount of fuel
    lets the loop end, [unwrapTS] returns that result, so [None] stands for
    a loop that runs forever. *)
Lemma unwrap_loop_fuel_adequate fuel last ts r :
  is_i64 ts -> unwrap_loop fuel last ts = Some r -> unwrapTS last ts = Some r.
Proof.
  intros Hts H. unfold unwrapTS.
  eapply unwrap_loop_more_fuel; eauto using unwrap_fuel_covers.
Qed.

(** The loop ends whenever [last] leaves room for one more 2^32. *)
Lemma unwrapTS_total last ts :
  is_i64 ts -> last <= 2 ^ 63 - uint32Overflow ->
  exists r, unwrapTS last ts = Some r /\ is_i64 r /\ last <= r /\ ts <= r.
Proof.
  intros Hts Hl.
  destruct (unwrap_loop_terminates _ _ _ Hts Hl (unwrap_fuel_covers last ts))
    as (r & Hr & Hi & Hle & _).
  exists r. unfold unwrapTS. repeat split; try apply Hi; try assumption.
  eapply unwrap_loop_ge, Hr.
Qed.

(** ** adjust, by cases *)

Lemma adjust_reset t pkt :
  needsReset t (correctedSN t pkt) = true ->
  adjust t pkt =
    Some (resetState t pkt,
          mkPacket (u16 (lastSN t + 1)) (Timestamp pkt),
          (wrap64 (lastTS t + resetTsOffset t),
           wrap64 (lastPTS t + rtpToDuration t (resetTsOffset t)),
           false)).
Proof.
  intros H. unfold adjust. cbn [SequenceNumber setSequenceNumber].
  fold (correctedSN t pkt). rewrite H. reflexivity.
Qed.

Lemma adjust_no_reset t pkt :
  needsReset t (correctedSN t pkt) = false ->
  adjust t pkt =
    match unwrapTS (lastTS t) (Timestamp pkt) with
    | None => None
    | Some ts =>
        Some (t, mkPacket (correctedSN t pkt) (Timestamp pkt),
              if ts =? lastTS t then (ts, lastPTS t, lastValid t)
              else (ts, wrap64 (getElapsed t ts + ptsOffset t), true))
    end.
Proof.
  intros H. unfold adjust. cbn [SequenceNumber setSequenceNumber].
  fold (correctedSN t pkt). rewrite H.
  change (Timestamp (setSequenceNumber pkt (correctedSN t pkt)))
    with (Timestamp pkt).
  destruct (unwrapTS (lastTS t) (Timestamp pkt)) as [ts |]; [| reflexivity].
  destruct (ts =? lastTS t); reflexivity.
Qed.

(** Every return of [adjust] is one of its three [return] statements. *)
Lemma adjust_cases t pkt t' pkt' ts pts valid :
  adjust t pkt = Some (t', pkt', (ts, pts, valid)) ->
  (needsReset t (correctedSN t pkt) = true
   /\ t' = resetState t pkt
   /\ pkt' = mkPacket (u16 (lastSN t + 1)) (Timestamp pkt)
   /\ ts = wrap64 (lastTS t + resetTsOffset t)
   /\ pts = wrap64 (lastPTS t + rtpToDuration t (resetTsOffset t))
   /\ valid = false)
  \/
  (needsReset t (correctedSN t pkt) = false
   /\ t' = t
   /\ pkt' = mkPacket (correctedSN t pkt) (Timestamp pkt)
   /\ unwrapTS (lastTS t) (Timestamp pkt) = Some ts
   /\ ((ts = lastTS t /\ pts = lastPTS t /\ valid = lastValid t)
       \/ (ts <> lastTS t
           /\ pts = wrap64 (getElapsed t ts + ptsOffset t)
           /\ valid = true))).
Proof.
  intros H. destruct (needsReset t (correctedSN t pkt)) eqn:R.
  - left. rewrite (adjust_reset _ _ R) in H. injection H as <- <- <- <- <-.
    repeat split.
  - right. rewrite (adjust_no_reset _ _ R) in H.
    destruct (unwrapTS (lastTS t) (Timestamp pkt)) as [u |]; [| discriminate].
    destruct (u =? lastTS t) eqn:E; injection H as <- <- <- <- <-.
    + apply Z.eqb_eq in E. repeat split. left. repeat split; assumption.
    + apply Z.eqb_neq in E. repeat split. right. repeat split; assumption.
Qed.

(** [adjust] returns as soon as its loop does. *)
Lemma adjust_total t pkt :
  is_i64 (Timestamp pkt) -> lastTS t <= 2 ^ 63 - uint32Overflow ->
  exists t' pkt' ts pts valid, adjust t pkt = Some (t', pkt', (ts, pts, valid)).
Proof.
  intros Hts Hl. destruct (needsReset t (correctedSN t pkt)) eqn:R.
  - rewrite (adjust_reset _ _ R). do 5 eexists. reflexivity.
  - rewrite (adjust_no_reset _ _ R).
    destruct (unwrapTS_total _ _ Hts Hl) as (r & -> & _).
    destruct (r =? lastTS t); do 5 eexists; reflexivity.
Qed.

(** [adjust] touches [snOffset] and [firstTS] only. *)
Lemma adjust_frame t pkt t' pkt' r :
  adjust t pkt = Some (t', pkt', r) ->
  trackID t' = trackID t /\ rtpDuration t' = rtpDuration t
  /\ frameDuration t' = frameDuration t
  /\ defaultFrameDuration t' = defaultFrameDuration t
  /\ startedAt t' = startedAt t /\ maxPTS t' = maxPTS t
  /\ lastSN t' = lastSN t /\ lastTS t' = lastTS t /\ lastPTS t' = lastPTS t
  /\ lastValid t' = lastValid t /\ inserted t' = inserted t
  /\ ptsOffset t' = ptsOffset t /\ lastPTSDrift t' = lastPTSDrift t.
Proof.
  destruct r as [[ts pts] valid]. intros H.
  destruct (adjust_cases _ _ _ _ _ _ _ H) as [(_ & -> & _) | (_ & -> & _)];
    repeat split.
Qed.

Lemma is_u32_i64 z : is_u32 z -> is_i64 z.
Proof. unfold is_u32, is_i64. lia. Qed.

(** ** Reachable states *)

Lemma getFrameDurationRTP_nonneg t : TrackInv t -> 0 <= getFrameDurationRTP t.
Proof.
  intros (Hf & Hd & _). unfold getFrameDurationRTP.
  destruct (frameDuration t =? 0); assumption.
Qed.

Lemma resetTsOffset_exact t :
  TrackInv t -> resetFits t ->
  resetTsOffset t = (inserted t + 1) * getFrameDurationRTP t
  /\ 0 <= resetTsOffset t.
Proof.
  intros HI HF. pose proof (getFrameDurationRTP_nonneg _ HI) as Hfd.
  destruct HI as (_ & _ & Hi & Hl). unfold resetFits in HF.
  unfold resetTsOffset. rewrite wrap64_mul_l.
  rewrite wrap64_small by (unfold is_i64; nia). nia.
Qed.

(** ** The adjusted timestamp against [lastTS] *)

Lemma adjust_ts_ge t pkt t' pkt' ts pts valid :
  TrackInv t -> resetFits t ->
  adjust t pkt = Some (t', pkt', (ts, pts, valid)) ->
  lastTS t <= ts.
Proof.
  intros HI HF H.
  destruct (adjust_cases _ _ _ _ _ _ _ H)
    as [(_ & _ & _ & -> & _) | (_ & _ & _ & Hu & _)].
  - destruct (resetTsOffset_exact _ HI HF) as (He & Hp).
    destruct HI as (_ & _ & _ & Hl). unfold resetFits in HF.
    rewrite wrap64_small; [lia |]. unfold is_i64. rewrite He in *. lia.
  - eapply unwrap_loop_ge, Hu.
Qed.

Lemma audio_two_packets_reached :
  feed (Initialize 0 0 audio48k (mkPacket 1 1000))
       [mkPacket 1 1000; mkPacket 2 1960]
  = Some ([(0, None); (20000000, None)], audio_two_packets).
Proof. vm_compute. reflexivity. Qed.

Lemma track_lastSN_100_reached :
  option_map snd (feed (Initialize 0 0 audio48k (mkPacket 1 1000)) (audio_stream 100))
  = Some track_lastSN_100.
Proof. vm_compute. reflexivity. Qed.

(** ** GetPTS, unfolded *)

Lemma GetPTS_eq t pkt t1 pkt1 ts pts valid :
  adjust t pkt = Some (t1, pkt1, (ts, pts, valid)) ->
  GetPTS t pkt =
    let t2 := set_inserted t1 0 in
    let t3 := if learnsDuration t pkt1 valid
              then set_frameDuration t2 (wrap64 (ts - lastTS t)) else t2 in
    if pastEnd t pts valid then Some (t3, pkt1, (0, Some EOF))
    else Some (set_lastValid
                 (set_lastPTS (set_lastSN (set_lastTS t3 ts) (SequenceNumber pkt1)) pts)
                 valid,
               pkt1, (pts, None)).
Proof.
  intros H. unfold GetPTS. rewrite H.
  destruct (adjust_frame _ _ _ _ _ H)
    as (_ & _ & _ & _ & _ & Hm & Hsn & Hts & _ & Hv & _).
  unfold learnsDuration, pastEnd. cbn -[wrap64 u16].
  rewrite Hsn, Hts, Hv.
  destruct (valid && lastValid t && (SequenceNumber pkt1 =? u16 (lastSN t + 1)));
    cbn -[wrap64 u16]; rewrite Hm; reflexivity.
Qed.

Lemma adjust_ts_i64 t pkt t' pkt' ts pts valid :
  is_i64 (Timestamp pkt) ->
  adjust t pkt = Some (t', pkt', (ts, pts, valid)) -> is_i64 ts.
Proof.
  intros Hp H.
  destruct (adjust_cases _ _ _ _ _ _ _ H)
    as [(_ & _ & _ & -> & _) | (_ & _ & _ & Hu & _)].
  - apply wrap64_range.
  - apply (unwrap_loop_sound _ _ _ _ Hp Hu).
Qed.

(** A valid result comes from the branches after the loop. *)
Lemma adjust_valid_no_reset t pkt t' pkt' ts pts :
  adjust t pkt = Some (t', pkt', (ts, pts, true)) ->
  needsReset t (correctedSN t pkt) = false /\ t' = t /\ lastTS t <= ts.
Proof.
  intros H.
  destruct (adjust_cases _ _ _ _ _ _ _ H)
    as [(_ & _ & _ & _ & _ & Hv) | (R & -> & _ & Hu & _)]; [discriminate |].
  repeat split; try assumption. eapply unwrap_loop_ge, Hu.
Qed.

Lemma TrackInv_new track :
  is_u32 (ClockRate track) -> TrackInv (newTrackSynchronizer track).
Proof.
  intros H. unfold TrackInv.
  repeat split; try (apply defaultFrameDuration_nonneg, H); cbn; lia.
Qed.

Lemma TrackInv_Initialize now start t pkt :
  TrackInv t -> TrackInv (Initialize now start t pkt).
Proof. intros H. exact H. Qed.

Lemma TrackInv_GetPTS t pkt t' pkt' r :
  TrackInv t -> resetFits t -> is_i64 (Timestamp pkt) ->
  GetPTS t pkt = Some (t', pkt', r) -> TrackInv t'.
Proof.
  intros HI HF Hp H.
  destruct (adjust t pkt) as [[[t1 pkt1] [[ts pts] valid]] |] eqn:Ha;
    [| unfold GetPTS in H; rewrite Ha in H; discriminate].
  rewrite (GetPTS_eq _ _ _ _ _ _ _ Ha) in H. cbn zeta in H.
  pose proof (adjust_ts_ge _ _ _ _ _ _ _ HI HF Ha) as Hge.
  pose proof (adjust_ts_i64 _ _ _ _ _ _ _ Hp Ha) as Hi.
  destruct (adjust_frame _ _ _ _ _ Ha)
    as (_ & _ & Hfd & Hdf & _ & _ & _ & Hts & _ & _ & _).
  destruct HI as (H1 & H2 & H3 & H4).
  assert (Hw : 0 <= wrap64 (ts - lastTS t)).
  { rewrite wrap64_small; unfold is_i64 in *; lia. }
  unfold TrackInv.
  destruct (learnsDuration t pkt1 valid), (pastEnd t pts valid);
    injection H as <- _ _; cbn -[wrap64]; rewrite ?Hfd, ?Hdf, ?Hts; lia.
Qed.

(** ** C2: adjusted timestamps do not go back *)



(** ** C3: the reset branch renumbers the packet *)

Lemma needsReset_true t sn :
  lastTS t <> 0 ->
  maxSNDropout < u16 (sn - lastSN t) -> maxSNDropout < u16 (lastSN t - sn) ->
  needsReset t sn = true.
Proof.
  intros H0 H1 H2. unfold needsReset.
  apply Z.eqb_neq in H0. apply Z.ltb_lt in H1, H2.
  rewrite H0, H1, H2. reflexivity.
Qed.

(** C3. When the sequence number with [snOffset] added is more than 3000
    away from [lastSN] in both 16-bit directions and [lastTS] is not zero,
    [adjust] sets the packet's sequence number to [lastSN + 1] (a uint16),
    moves [snOffset] so that the raw number plus the new offset is that
    same [lastSN + 1], and returns [valid = false].  With [lastSN = 100],
    [snOffset = 0] and raw number 5000 the packet leaves with 101 and
    [valid] is false. *)
Theorem adjust_reset_renumbers :
  (forall t pkt,
     lastTS t <> 0 ->
     maxSNDropout < u16 (correctedSN t pkt - lastSN t) ->
     maxSNDropout < u16 (lastSN t - correctedSN t pkt) ->
     exists t' pkt' ts pts,
       adjust t pkt = Some (t', pkt', (ts, pts, false))
       /\ SequenceNumber pkt' = u16 (lastSN t + 1)
       /\ snOffset t' = u16 (snOffset t + (lastSN t + 1 - correctedSN t pkt))
       /\ u16 (SequenceNumber pkt + snOffset t') = u16 (lastSN t + 1)
       /\ lastSN t' = lastSN t)
  /\
  (forall t rtpTS,
     lastSN t = 100 -> snOffset t = 0 -> lastTS t <> 0 ->
     exists t' ts pts,
       adjust t (mkPacket 5000 rtpTS) = Some (t', mkPacket 101 rtpTS, (ts, pts, false))
       /\ snOffset t' = u16 (101 - 5000)).
Proof.
  split.
  - intros t pkt H0 H1 H2.
    rewrite (adjust_reset _ _ (needsReset_true _ _ H0 H1 H2)).
    do 4 eexists. split; [reflexivity |].
    cbn [SequenceNumber resetState set_firstTS set_snOffset snOffset lastSN].
    assert (Hoff : u16 (snOffset t + u16 (u16 (lastSN t + 1) - correctedSN t pkt))
                   = u16 (snOffset t + (lastSN t + 1 - correctedSN t pkt))).
    { rewrite u16_add_r.
      replace (snOffset t + (u16 (lastSN t + 1) - correctedSN t pkt))
        with (u16 (lastSN t + 1) + (snOffset t - correctedSN t pkt)) by lia.
      rewrite u16_add_l. f_equal. lia. }
    repeat split; try exact Hoff.
    rewrite Hoff, u16_add_r. unfold correctedSN.
    replace (SequenceNumber pkt
             + (snOffset t + (lastSN t + 1 - u16 (SequenceNumber pkt + snOffset t))))
      with (lastSN t + 1 + (SequenceNumber pkt + snOffset t)
            - u16 (SequenceNumber pkt + snOffset t)) by lia.
    unfold u16. rewrite Zminus_mod_idemp_r. f_equal. lia.
  - intros t rtpTS Hsn Hoff H0.
    assert (R : needsReset t (correctedSN t (mkPacket 5000 rtpTS)) = true).
    { unfold correctedSN. cbn [SequenceNumber]. rewrite Hoff.
      apply needsReset_true; [exact H0 | rewrite Hsn; vm_compute; reflexivity ..]. }
    rewrite (adjust_reset _ _ R).
    do 3 eexists. split.
    + rewrite Hsn. reflexivity.
    + cbn [resetState set_firstTS set_snOffset snOffset].
      unfold correctedSN. cbn [SequenceNumber]. rewrite Hoff, Hsn.
      vm_compute. reflexivity.
Qed.

Lemma adjust_reset_renumbers_witness :
  exists t' pkt' ts pts,
    adjust track_lastSN_100 (mkPacket 5000 7) = Some (t', pkt', (ts, pts, false))
    /\ SequenceNumber pkt' = u16 (lastSN track_lastSN_100 + 1)
    /\ snOffset t'
       = u16 (snOffset track_lastSN_100
              + (lastSN track_lastSN_100 + 1
                 - correctedSN track_lastSN_100 (mkPacket 5000 7)))
    /\ u16 (SequenceNumber (mkPacket 5000 7) + snOffset t')
       = u16 (lastSN track_lastSN_100 + 1)
    /\ lastSN t' = lastSN track_lastSN_100.
Proof.
  apply (proj1 adjust_reset_renumbers track_lastSN_100 (mkPacket 5000 7)).
  - cbn. discriminate.
  - vm_compute. reflexivity.
  - vm_compute. reflexivity.
Defined.

(** ** C4: end of stream *)

Lemma pastEnd_spec t pts valid :
  pastEnd t pts valid = true <->
  0 < maxPTS t /\ (maxPTS t < pts \/ valid = false).
Proof.
  unfold pastEnd.
  rewrite andb_true_iff, orb_true_iff, negb_true_iff, !Z.ltb_lt. reflexivity.
Qed.

(** C4. [GetPTS] returns [io.EOF] exactly when [maxPTS > 0] and the
    computed [pts] is above [maxPTS] or the packet is not valid; it then
    returns 0 and leaves [lastSN], [lastTS], [lastPTS] and [lastValid] as
    they were.  In every other case it returns the computed [pts] with no
    error and stores the packet's values in those four fields.  The call
    returns whenever [lastTS] leaves room for the unwrap loop. *)
Theorem GetPTS_end_of_stream t pkt :
  is_i64 (Timestamp pkt) -> lastTS t <= 2 ^ 63 - uint32Overflow ->
  exists t1 pkt' ts pts valid t' res,
    adjust t pkt = Some (t1, pkt', (ts, pts, valid))
    /\ GetPTS t pkt = Some (t', pkt', res)
    /\ (snd res = Some EOF <->
        0 < maxPTS t /\ (maxPTS t < pts \/ valid = false))
    /\ (snd res = Some EOF ->
        fst res = 0
        /\ lastSN t' = lastSN t /\ lastTS t' = lastTS t
        /\ lastPTS t' = lastPTS t /\ lastValid t' = lastValid t)
    /\ (snd res <> Some EOF ->
        res = (pts, None)
        /\ lastSN t' = SequenceNumber pkt' /\ lastTS t' = ts
        /\ lastPTS t' = pts /\ lastValid t' = valid).
Proof.
  intros Hp Hl.
  destruct (adjust_total t pkt Hp Hl) as (t1 & pkt' & ts & pts & valid & Ha).
  destruct (adjust_frame _ _ _ _ _ Ha)
    as (_ & _ & _ & _ & _ & _ & Hsn & Hts & Hpts & Hv & _).
  exists t1, pkt', ts, pts, valid.
  rewrite (GetPTS_eq _ _ _ _ _ _ _ Ha). cbn zeta.
  pose proof (pastEnd_spec t pts valid) as Hpe.
  destruct (pastEnd t pts valid).
  - eexists _, _. split; [exact Ha |]. split; [reflexivity |].
    cbn [fst snd]. split; [| split].
    + split; [intros _; apply Hpe; reflexivity | reflexivity].
    + intros _. destruct (learnsDuration t pkt' valid); cbn; auto.
    + intros H. congruence.
  - eexists _, _. split; [exact Ha |]. split; [reflexivity |].
    cbn [fst snd]. split; [| split].
    + split; [discriminate | intros H; apply Hpe in H; discriminate].
    + discriminate.
    + intros _. repeat split.
Qed.

Lemma GetPTS_end_of_stream_witness :
  GetPTS audio_ending (mkPacket 3 2920)
  = Some (audio_ending, mkPacket 3 2920, (0, Some EOF))
  /\ exists t1 pkt' ts pts valid t' res,
       adjust audio_ending (mkPacket 3 2920) = Some (t1, pkt', (ts, pts, valid))
       /\ GetPTS audio_ending (mkPacket 3 2920) = Some (t', pkt', res)
       /\ (snd res = Some EOF <->
           0 < maxPTS audio_ending
           /\ (maxPTS audio_ending < pts \/ valid = false))
       /\ (snd res = Some EOF ->
           fst res = 0
           /\ lastSN t' = lastSN audio_ending /\ lastTS t' = lastTS audio_ending
           /\ lastPTS t' = lastPTS audio_ending
           /\ lastValid t' = lastValid audio_ending)
       /\ (snd res <> Some EOF ->
           res = (pts, None)
           /\ lastSN t' = SequenceNumber pkt' /\ lastTS t' = ts
           /\ lastPTS t' = pts /\ lastValid t' = valid).
Proof.
  split; [vm_compute; reflexivity |].
  apply (GetPTS_end_of_stream audio_ending (mkPacket 3 2920)).
  - unfold is_i64. cbn. lia.
  - cbn. lia.
Defined.

(** ** C5: what GetPTS does to the caller's packet *)

Lemma GetPTS_packet t pkt t' pkt' r :
  GetPTS t pkt = Some (t', pkt', r) ->
  exists t1 res, adjust t pkt = Some (t1, pkt', res).
Proof.
  intros H.
  destruct (adjust t pkt) as [[[t1 pkt1] [[ts pts] valid]] |] eqn:Ha;
    [| unfold GetPTS in H; rewrite Ha in H; discriminate].
  rewrite (GetPTS_eq _ _ _ _ _ _ _ Ha) in H. cbn zeta in H.
  destruct (pastEnd t pts valid); injection H as _ <- _; eauto.
Qed.

(** [GetPTS] on the packet of C3: the caller's sequence number 5000 has
    become 101 when the call returns. *)
Lemma GetPTS_rewrites_SequenceNumber :
  exists t' pkt' r,
    GetPTS track_lastSN_100 (mkPacket 5000 7) = Some (t', pkt', r)
    /\ SequenceNumber pkt' = 101
    /\ SequenceNumber pkt' <> SequenceNumber (mkPacket 5000 7).
Proof.
  do 3 eexists. split; [vm_compute; reflexivity |].
  split; [reflexivity | discriminate].
Qed.

(** A reset can also hand the packet back as it came: after 3000 inserted
    frames [snOffset] is 3000, the packet numbered 3 after [lastSN = 2]
    resets, and [lastSN + 1] is its own number. *)
Lemma GetPTS_reset_keeps_number :
  exists t' r,
    GetPTS (set_snOffset (set_inserted audio_two_packets 3000) 3000) (mkPacket 3 2920)
    = Some (t', mkPacket 3 2920, r)
    /\ needsReset (set_snOffset (set_inserted audio_two_packets 3000) 3000)
         (correctedSN (set_snOffset (set_inserted audio_two_packets 3000) 3000)
            (mkPacket 3 2920)) = true
    /\ snOffset (set_snOffset (set_inserted audio_two_packets 3000) 3000) = 3000.
Proof. do 2 eexists. repeat split; vm_compute; reflexivity. Qed.

Lemma u16_add_fixed sn off :
  is_u16 sn -> is_u16 off -> (u16 (sn + off) = sn <-> off = 0).
Proof.
  unfold is_u16, u16. change (2 ^ 16) with 65536. intros Hs Ho. split.
  - intros H.
    destruct (Z.lt_ge_cases (sn + off) 65536) as [Hlt | Hge].
    + rewrite Z.mod_small in H by lia. lia.
    + replace (sn + off) with (sn + off - 65536 + 1 * 65536) in H by lia.
      rewrite Z.mod_add, Z.mod_small in H by lia. lia.
  - intros ->. rewrite Z.add_0_r. apply Z.mod_small. lia.
Qed.

(** C5, amended. [GetPTS] never changes the packet's timestamp.  It does
    rewrite the packet's sequence number in place: to the number plus
    [snOffset] (a uint16), or to [lastSN + 1] when the reset branch runs.
    The packet is returned as it came exactly when the reset branch does
    not run and [snOffset] is zero, or the reset branch runs and the
    packet's number already is [lastSN + 1]. *)
Theorem GetPTS_packet_effect t pkt t' pkt' r :
  GetPTS t pkt = Some (t', pkt', r) ->
  Timestamp pkt' = Timestamp pkt
  /\ SequenceNumber pkt'
     = (if needsReset t (correctedSN t pkt) then u16 (lastSN t + 1)
        else correctedSN t pkt)
  /\ (is_u16 (SequenceNumber pkt) -> is_u16 (snOffset t) ->
      (pkt' = pkt <->
       if needsReset t (correctedSN t pkt)
       then SequenceNumber pkt = u16 (lastSN t + 1)
       else snOffset t = 0)).
Proof.
  intros H. destruct (GetPTS_packet _ _ _ _ _ H) as (t1 & [[ts pts] valid] & Ha).
  destruct (adjust_cases _ _ _ _ _ _ _ Ha)
    as [(R & _ & -> & _) | (R & _ & -> & _)]; rewrite R; cbn [Timestamp SequenceNumber].
  - repeat split.
    + intros E. rewrite <- E at 1. reflexivity.
    + intros E. destruct pkt as [sn ts']. cbn in E |- *. rewrite <- E. reflexivity.
  - split; [reflexivity |]. split; [reflexivity |]. intros Hu Ho.
    rewrite <- (u16_add_fixed _ _ Hu Ho). fold (correctedSN t pkt). split.
    + intros E. rewrite <- E at 2. reflexivity.
    + intros E. destruct pkt as [sn ts']. cbn in E |- *. rewrite E. reflexivity.
Qed.

Lemma GetPTS_packet_effect_witness :
  Timestamp (mkPacket 4 3880) = Timestamp (mkPacket 3 3880)
  /\ SequenceNumber (mkPacket 4 3880)
     = (if needsReset (insertBump audio_two_packets)
             (correctedSN (insertBump audio_two_packets) (mkPacket 3 3880))
        then u16 (lastSN (insertBump audio_two_packets) + 1)
        else correctedSN (insertBump audio_two_packets) (mkPacket 3 3880))
  /\ (is_u16 (SequenceNumber (mkPacket 3 3880)) ->
      is_u16 (snOffset (insertBump audio_two_packets)) ->
      (mkPacket 4 3880 = mkPacket 3 3880 <->
       if needsReset (insertBump audio_two_packets)
            (correctedSN (insertBump audio_two_packets) (mkPacket 3 3880))
       then SequenceNumber (mkPacket 3 3880)
            = u16 (lastSN (insertBump audio_two_packets) + 1)
       else snOffset (insertBump audio_two_packets) = 0)).
Proof.
  apply (GetPTS_packet_effect (insertBump audio_two_packets) (mkPacket 3 3880)
           (set_lastValid
              (set_lastPTS
                 (set_lastSN
                    (set_lastTS (set_inserted (insertBump audio_two_packets) 0) 3880)
                    4) 60000000)
              true)
           (mkPacket 4 3880) (60000000, None)).
  vm_compute. reflexivity.
Defined.

(** ** insertFrameBefore, unfolded *)

Lemma insertFrameBefore_nil t pkt :
  insertFrameBefore t pkt None
  = Some (insertBump t, insertedPacket t, None, (insertPTS t, true)).
Proof. reflexivity. Qed.

Lemma insertFrameBefore_next t pkt nxt t1 nxt1 nextTS npts nvalid :
  adjust (insertBump t) nxt = Some (t1, nxt1, (nextTS, npts, nvalid)) ->
  insertFrameBefore t pkt (Some nxt)
  = if nextTS <? wrap64 (insertTS t + getFrameDurationRTP t)
    then Some (t1, pkt, Some nxt1, (0, false))
    else Some (t1, insertedPacket t, Some nxt1, (insertPTS t, true)).
Proof.
  intros H. unfold insertFrameBefore. cbv zeta.
  change (adjust _ nxt) with (adjust (insertBump t) nxt). rewrite H.
  destruct (adjust_frame _ _ _ _ _ H)
    as (_ & Hr & _ & _ & _ & _ & Hsn & _ & Hpts & _ & Hi & _).
  change (nextTS <? _)
    with (nextTS <? wrap64 (insertTS t + getFrameDurationRTP t)).
  destruct (nextTS <? wrap64 (insertTS t + getFrameDurationRTP t));
    [reflexivity |].
  rewrite Hr, Hsn, Hpts, Hi. reflexivity.
Qed.

Lemma insertFrameBefore_nil_next t pkt t' pkt' next' r :
  insertFrameBefore t pkt None = Some (t', pkt', next', r) -> snd r = true.
Proof. rewrite insertFrameBefore_nil. intros [= _ _ _ <-]. reflexivity. Qed.

(** The end of the synthetic frame, [ts + frameDurationRTP], is exactly the
    timestamp the reset branch of [adjust] projects for [next]. *)
Lemma insert_end_is_reset_projection t :
  wrap64 (insertTS t + getFrameDurationRTP t)
  = wrap64 (lastTS (insertBump t) + resetTsOffset (insertBump t)).
Proof.
  unfold insertTS, resetTsOffset.
  change (getFrameDurationRTP (insertBump t)) with (getFrameDurationRTP t).
  change (lastTS (insertBump t)) with (lastTS t).
  change (inserted (insertBump t)) with (wrap64 (inserted t + 1)).
  set (f := getFrameDurationRTP t). set (i := wrap64 (inserted t + 1)).
  rewrite wrap64_add_l, !wrap64_mul_l, !wrap64_add_r.
  replace (lastTS t + wrap64 (i * f) + f) with (lastTS t + f + wrap64 (i * f)) by lia.
  rewrite wrap64_add_r. f_equal. lia.
Qed.

(** So a [next] that takes the reset branch never has its insertion
    refused. *)
Lemma insertFrameBefore_reset_not_refused t pkt nxt t' pkt' next' pts ok :
  needsReset (insertBump t) (correctedSN (insertBump t) nxt) = true ->
  insertFrameBefore t pkt (Some nxt) = Some (t', pkt', next', (pts, ok)) ->
  ok = true.
Proof.
  intros R H. rewrite (insertFrameBefore_next _ _ _ _ _ _ _ _ (adjust_reset _ _ R)) in H.
  rewrite insert_end_is_reset_projection, Z.ltb_irrefl in H.
  injection H as _ _ _ _ <-. reflexivity.
Qed.

(** ** C6: refusal of an insertion before [next] *)

(** The claim as stated fails where the synthetic frame ends exactly at
    [next]: after two audio packets (last timestamp 1960, frame duration
    960) the synthetic frame is at 2920 and ends at 3880; with [next] at
    3880 the frame is inserted, not refused. *)
Lemma insertFrameBefore_inserts_at_boundary :
  wrap64 (insertTS audio_two_packets + getFrameDurationRTP audio_two_packets) = 3880
  /\ adjust (insertBump audio_two_packets) (mkPacket 3 3880)
     = Some (insertBump audio_two_packets, mkPacket 4 3880, (3880, 60000000, true))
  /\ insertFrameBefore audio_two_packets (mkPacket 0 0) (Some (mkPacket 3 3880))
     = Some (insertBump audio_two_packets, mkPacket 3 2920,
             Some (mkPacket 4 3880), (40000000, true)).
Proof. repeat split; vm_compute; reflexivity. Qed.

(** Nor is the returned PTS always below the PTS of [next]: once a sender
    report has lowered [ptsOffset] by 50 ms, a frame inserted a full frame
    duration before [next] gets 40 ms while [next] gets 30 ms. *)
Lemma insertFrameBefore_pts_above_next :
  let t := set_ptsOffset audio_two_packets (-50000000) in
  adjust (insertBump t) (mkPacket 3 4840)
  = Some (insertBump t, mkPacket 4 4840, (4840, 30000000, true))
  /\ insertFrameBefore t (mkPacket 0 0) (Some (mkPacket 3 4840))
     = Some (insertBump t, mkPacket 3 2920, Some (mkPacket 4 4840), (40000000, true)).
Proof. split; vm_compute; reflexivity. Qed.

(** C6, amended. With a [next] packet, the insertion is refused exactly
    when the end of the synthetic frame, [ts + frameDurationRTP], is
    strictly after the timestamp [adjust] gives [next]; a frame that ends
    exactly there is inserted.  On refusal the PTS returned is 0 and [pkt]
    is not written.  On success [pkt] gets the sequence number
    [lastSN + inserted] and the timestamp [uint32(ts)], and the PTS is
    [lastPTS] plus the rounded duration of [inserted] frames. *)
Theorem insertFrameBefore_refusal t pkt nxt :
  is_i64 (Timestamp nxt) -> lastTS t <= 2 ^ 63 - uint32Overflow ->
  exists t' nxt' nextTS npts nvalid pkt' pts ok,
    adjust (insertBump t) nxt = Some (t', nxt', (nextTS, npts, nvalid))
    /\ insertFrameBefore t pkt (Some nxt) = Some (t', pkt', Some nxt', (pts, ok))
    /\ (ok = false <-> nextTS < wrap64 (insertTS t + getFrameDurationRTP t))
    /\ (ok = false -> pts = 0 /\ pkt' = pkt)
    /\ (ok = true -> pkt' = insertedPacket t /\ pts = insertPTS t).
Proof.
  intros Hp Hl.
  destruct (adjust_total (insertBump t) nxt Hp Hl)
    as (t' & nxt' & nextTS & npts & nvalid & Ha).
  exists t', nxt', nextTS, npts, nvalid.
  rewrite (insertFrameBefore_next _ pkt _ _ _ _ _ _ Ha).
  destruct (nextTS <? wrap64 (insertTS t + getFrameDurationRTP t)) eqn:E.
  - apply Z.ltb_lt in E. exists pkt, 0, false.
    repeat split; auto; discriminate.
  - apply Z.ltb_ge in E. exists (insertedPacket t), (insertPTS t), true.
    repeat split; auto; try discriminate. lia.
Qed.

Lemma insertFrameBefore_refusal_witness :
  insertFrameBefore audio_two_packets (mkPacket 0 0) (Some (mkPacket 3 3879))
  = Some (insertBump audio_two_packets, mkPacket 0 0, Some (mkPacket 4 3879), (0, false))
  /\ exists t' nxt' nextTS npts nvalid pkt' pts ok,
       adjust (insertBump audio_two_packets) (mkPacket 3 3879)
       = Some (t', nxt', (nextTS, npts, nvalid))
       /\ insertFrameBefore audio_two_packets (mkPacket 0 0) (Some (mkPacket 3 3879))
          = Some (t', pkt', Some nxt', (pts, ok))
       /\ (ok = false <->
           nextTS < wrap64 (insertTS audio_two_packets
                            + getFrameDurationRTP audio_two_packets))
       /\ (ok = false -> pts = 0 /\ pkt' = mkPacket 0 0)
       /\ (ok = true ->
           pkt' = insertedPacket audio_two_packets
           /\ pts = insertPTS audio_two_packets).
Proof.
  split; [vm_compute; reflexivity |].
  apply (insertFrameBefore_refusal audio_two_packets (mkPacket 0 0) (mkPacket 3 3879)).
  - unfold is_i64. cbn. lia.
  - cbn. lia.
Defined.

(** ** C9: a refused insertion keeps its first three assignments *)

(** C9. When [InsertFrameBefore] refuses, [inserted] and [snOffset] stay
    one above what they were (as int64 and uint16), [lastValid] stays
    false, the PTS returned is 0 and the caller's packet is as it came. *)
Theorem insertFrameBefore_refused_state t pkt next t' pkt' next' pts :
  InsertFrameBefore t pkt next = Some (t', pkt', next', (pts, false)) ->
  inserted t' = wrap64 (inserted t + 1)
  /\ (is_i64 (inserted t + 1) -> inserted t' = inserted t + 1)
  /\ snOffset t' = u16 (snOffset t + 1)
  /\ lastValid t' = false
  /\ pkt' = pkt /\ pts = 0.
Proof.
  unfold InsertFrameBefore. intros H.
  destruct next as [nxt |];
    [| apply insertFrameBefore_nil_next in H; discriminate].
  destruct (adjust (insertBump t) nxt) as [[[t1 nxt1] [[nextTS npts] nvalid]] |] eqn:Ha.
  - destruct (needsReset (insertBump t) (correctedSN (insertBump t) nxt)) eqn:R.
    + pose proof (insertFrameBefore_reset_not_refused _ _ _ _ _ _ _ _ R H).
      discriminate.
    + rewrite (insertFrameBefore_next _ _ _ _ _ _ _ _ Ha) in H.
      destruct (adjust_cases _ _ _ _ _ _ _ Ha)
        as [(R' & _) | (_ & -> & _)]; [congruence |].
      destruct (nextTS <? wrap64 (insertTS t + getFrameDurationRTP t));
        [| discriminate].
      injection H as <- <- _ <-. cbn -[wrap64 u16].
      repeat split. intros Hi. apply wrap64_small, Hi.
  - unfold insertFrameBefore in H. cbv zeta in H.
    change (adjust _ nxt) with (adjust (insertBump t) nxt) in H.
    rewrite Ha in H. discriminate.
Qed.

Lemma insertFrameBefore_refused_state_witness :
  inserted (insertBump audio_two_packets) = wrap64 (inserted audio_two_packets + 1)
  /\ (is_i64 (inserted audio_two_packets + 1) ->
      inserted (insertBump audio_two_packets) = inserted audio_two_packets + 1)
  /\ snOffset (insertBump audio_two_packets) = u16 (snOffset audio_two_packets + 1)
  /\ lastValid (insertBump audio_two_packets) = false
  /\ mkPacket 0 0 = mkPacket 0 0 /\ 0 = 0.
Proof.
  apply (insertFrameBefore_refused_state audio_two_packets (mkPacket 0 0)
           (Some (mkPacket 3 3879)) (insertBump audio_two_packets) (mkPacket 0 0)
           (Some (mkPacket 4 3879)) 0).
  vm_compute. reflexivity.
Defined.

(** ** C10: the overlap check runs [adjust] on [next] *)

(** C10. With a [next] packet, whatever the outcome of the insertion, the
    track and [next] are left as [adjust] leaves them when run on [next]
    after the three opening assignments: the sequence number of [next] has
    the incremented [snOffset] added, and when [next] takes the reset
    branch its sequence number is [lastSN + 1] and [snOffset] and [firstTS]
    are moved. *)
Theorem insertFrameBefore_adjusts_next t pkt nxt t' pkt' next' pts ok :
  InsertFrameBefore t pkt (Some nxt) = Some (t', pkt', next', (pts, ok)) ->
  exists nxt' ts npts nvalid,
    adjust (insertBump t) nxt = Some (t', nxt', (ts, npts, nvalid))
    /\ next' = Some nxt'
    /\ (needsReset (insertBump t) (correctedSN (insertBump t) nxt) = false ->
        SequenceNumber nxt' = u16 (SequenceNumber nxt + u16 (snOffset t + 1))
        /\ snOffset t' = u16 (snOffset t + 1)
        /\ firstTS t' = firstTS t)
    /\ (needsReset (insertBump t) (correctedSN (insertBump t) nxt) = true ->
        SequenceNumber nxt' = u16 (lastSN t + 1)
        /\ snOffset t'
           = u16 (u16 (snOffset t + 1)
                  + u16 (u16 (lastSN t + 1) - correctedSN (insertBump t) nxt))
        /\ firstTS t' = wrap64 (firstTS t + wrap64 (Timestamp nxt - ts))).
Proof.
  unfold InsertFrameBefore. intros H.
  destruct (adjust (insertBump t) nxt) as [[[t1 nxt1] [[nextTS npts] nvalid]] |] eqn:Ha.
  - rewrite (insertFrameBefore_next _ _ _ _ _ _ _ _ Ha) in H.
    assert (Ht : t' = t1 /\ next' = Some nxt1).
    { destruct (nextTS <? wrap64 (insertTS t + getFrameDurationRTP t));
        injection H as <- _ <- _ _; auto. }
    destruct Ht as (-> & ->). exists nxt1, nextTS, npts, nvalid.
    split; [reflexivity |]. split; [reflexivity |].
    destruct (adjust_cases _ _ _ _ _ _ _ Ha)
      as [(R & -> & -> & -> & _) | (R & -> & -> & _)];
      rewrite R; (split; [intros Hc | intros Hc]); try discriminate;
      repeat split.
  - unfold insertFrameBefore in H. cbv zeta in H.
    change (adjust _ nxt) with (adjust (insertBump t) nxt) in H.
    rewrite Ha in H. discriminate.
Qed.

Lemma insertFrameBefore_adjusts_next_witness :
  exists nxt' ts npts nvalid,
    adjust (insertBump audio_two_packets) (mkPacket 3 3879)
    = Some (insertBump audio_two_packets, nxt', (ts, npts, nvalid))
    /\ Some (mkPacket 4 3879) = Some nxt'
    /\ (needsReset (insertBump audio_two_packets)
          (correctedSN (insertBump audio_two_packets) (mkPacket 3 3879)) = false ->
        SequenceNumber nxt'
        = u16 (SequenceNumber (mkPacket 3 3879) + u16 (snOffset audio_two_packets + 1))
        /\ snOffset (insertBump audio_two_packets) = u16 (snOffset audio_two_packets + 1)
        /\ firstTS (insertBump audio_two_packets) = firstTS audio_two_packets)
    /\ (needsReset (insertBump audio_two_packets)
          (correctedSN (insertBump audio_two_packets) (mkPacket 3 3879)) = true ->
        SequenceNumber nxt' = u16 (lastSN audio_two_packets + 1)
        /\ snOffset (insertBump audio_two_packets)
           = u16 (u16 (snOffset audio_two_packets + 1)
                  + u16 (u16 (lastSN audio_two_packets + 1)
                         - correctedSN (insertBump audio_two_packets) (mkPacket 3 3879)))
        /\ firstTS (insertBump audio_two_packets)
           = wrap64 (firstTS audio_two_packets
                     + wrap64 (Timestamp (mkPacket 3 3879) - ts))).
Proof.
  apply (insertFrameBefore_adjusts_next audio_two_packets (mkPacket 0 0)
           (mkPacket 3 3879) (insertBump audio_two_packets) (mkPacket 0 0)
           (Some (mkPacket 4 3879)) 0 false).
  vm_compute. reflexivity.
Defined.

Lemma TrackInv_insertFrameBefore t pkt next t' pkt' next' r :
  TrackInv t -> is_i64 (inserted t + 1) ->
  insertFrameBefore t pkt next = Some (t', pkt', next', r) -> TrackInv t'.
Proof.
  intros (H1 & H2 & H3 & H4) Hi H.
  assert (Hb : TrackInv (insertBump t)).
  { unfold TrackInv. cbn -[wrap64 u16]. rewrite (wrap64_small _ Hi). lia. }
  destruct next as [nxt |].
  - destruct (adjust (insertBump t) nxt) as [[[t1 nxt1] [[nextTS npts] nvalid]] |] eqn:Ha.
    + rewrite (insertFrameBefore_next _ _ _ _ _ _ _ _ Ha) in H.
      destruct (adjust_frame _ _ _ _ _ Ha)
        as (_ & _ & Hfd & Hdf & _ & _ & _ & Hts & _ & _ & Hin & _).
      assert (t' = t1)
        by (destruct (nextTS <? wrap64 (insertTS t + getFrameDurationRTP t));
            injection H as <- _ _ _; reflexivity).
      subst t'. unfold TrackInv in *. rewrite Hfd, Hdf, Hts, Hin. exact Hb.
    + unfold insertFrameBefore in H. cbv zeta in H.
      change (adjust _ nxt) with (adjust (insertBump t) nxt) in H.
      rewrite Ha in H. discriminate.
  - rewrite insertFrameBefore_nil in H. injection H as <- _ _ _. exact Hb.
Qed.

(** ** C7: learning the frame duration *)

Lemma video_two_packets_reached :
  feed (Initialize 0 0 video90k (mkPacket 1 1000))
       [mkPacket 1 1000; mkPacket 2 4000]
  = Some ([(0, None); (33333333, None)], video_two_packets).
Proof. vm_compute. reflexivity. Qed.

(** C7 fails on the code.  A video track at 90 kHz receives (1, 1000) and
    (2, 4000) and learns the frame duration 3000, 33333333 ns.  The next
    packet, (3, 4000), is the second packet of the same frame: it is valid,
    follows a valid packet and has the next sequence number, so the update
    runs although no new frame has started, and [frameDuration] becomes
    [ts - lastTS = 0].  The learned value is gone: [getFrameDurationRTP]
    reads 0 as nothing recorded and [GetFrameDuration] answers with the
    default of 1/24 s, which is neither the learned duration nor the
    difference stored. *)
Theorem GetFrameDuration_after_same_timestamp :
  exists t',
    frameDuration video_two_packets = 3000
    /\ GetFrameDuration video_two_packets = 33333333
    /\ adjust video_two_packets (mkPacket 3 4000)
       = Some (video_two_packets, mkPacket 3 4000, (4000, 33333333, true))
    /\ lastValid video_two_packets = true
    /\ SequenceNumber (mkPacket 3 4000) = u16 (lastSN video_two_packets + 1)
    /\ GetPTS video_two_packets (mkPacket 3 4000)
       = Some (t', mkPacket 3 4000, (33333333, None))
    /\ frameDuration t' = 4000 - lastTS video_two_packets
    /\ frameDuration t' = 0
    /\ GetFrameDuration t' = 41666667
    /\ rtpToDuration t' (4000 - lastTS video_two_packets) = 0.
Proof. eexists. repeat split; vm_compute; reflexivity. Qed.

Lemma GetPTS_rtpDuration t pkt t' pkt' r :
  GetPTS t pkt = Some (t', pkt', r) -> rtpDuration t' = rtpDuration t.
Proof.
  intros H.
  destruct (adjust t pkt) as [[[t1 pkt1] [[ts pts] valid]] |] eqn:Ha;
    [| unfold GetPTS in H; rewrite Ha in H; discriminate].
  rewrite (GetPTS_eq _ _ _ _ _ _ _ Ha) in H. cbn zeta in H.
  destruct (adjust_frame _ _ _ _ _ Ha) as (_ & Hr & _).
  destruct (learnsDuration t pkt1 valid), (pastEnd t pts valid);
    injection H as <- _ _; exact Hr.
Qed.

(** X22. What the update of [GetPTS] stores.  When the packet is valid,
    the previous one was valid and the sequence number is the previous plus
    one, [frameDuration] becomes [ts - lastTS], which is 0 for a packet
    that repeats the timestamp.  When the timestamp has moved on,
    [GetFrameDuration] then returns that difference in nanoseconds; at
    clock rate 48000 and a difference of 960 that is 20 ms. *)
Theorem GetPTS_learns_frameDuration t pkt t1 pkt1 ts pts t' pkt' res :
  0 <= lastTS t -> is_i64 (Timestamp pkt) ->
  adjust t pkt = Some (t1, pkt1, (ts, pts, true)) ->
  lastValid t = true ->
  SequenceNumber pkt1 = u16 (lastSN t + 1) ->
  GetPTS t pkt = Some (t', pkt', res) ->
  frameDuration t' = ts - lastTS t
  /\ (ts <> lastTS t -> GetFrameDuration t' = rtpToDuration t (ts - lastTS t))
  /\ (rtpDuration t = F64.div (F64.of_int 1000000000) (F64.of_int 48000) ->
      ts - lastTS t = 960 -> GetFrameDuration t' = 20000000).
Proof.
  intros Hl Hp Ha Hv Hsn H.
  pose proof (GetPTS_rtpDuration _ _ _ _ _ H) as Hr.
  pose proof (adjust_ts_i64 _ _ _ _ _ _ _ Hp Ha) as Hi.
  destruct (adjust_valid_no_reset _ _ _ _ _ _ Ha) as (_ & _ & Hge).
  assert (Hfd : frameDuration t' = ts - lastTS t).
  { rewrite (GetPTS_eq _ _ _ _ _ _ _ Ha) in H. cbn zeta in H.
    unfold learnsDuration in H. rewrite Hv, Hsn, Z.eqb_refl in H.
    cbn [andb] in H.
    destruct (pastEnd t pts true); injection H as <- _ _; cbn -[wrap64];
      apply wrap64_small; unfold is_i64 in *; lia. }
  assert (Hg : ts <> lastTS t -> GetFrameDuration t' = rtpToDuration t (ts - lastTS t)).
  { intros Hne. unfold GetFrameDuration, getFrameDurationRTP, rtpToDuration.
    rewrite Hfd, Hr.
    destruct (ts - lastTS t =? 0) eqn:E; [apply Z.eqb_eq in E; lia | reflexivity]. }
  repeat split; try assumption.
  intros Hrate Hd. rewrite Hg by lia.
  unfold rtpToDuration. rewrite Hrate, Hd. vm_compute. reflexivity.
Qed.

Lemma GetPTS_learns_frameDuration_witness :
  exists t',
    GetPTS (set_lastValid (set_lastPTS (set_lastSN (set_lastTS
              (Initialize 0 0 audio48k (mkPacket 1 1000)) 1000) 1) 0) true)
           (mkPacket 2 1960)
    = Some (t', mkPacket 2 1960, (20000000, None))
    /\ frameDuration t' = 1960 - 1000
    /\ (1960 <> 1000 -> GetFrameDuration t' = 20000000)
    /\ GetFrameDuration t' = 20000000.
Proof.
  set (t := set_lastValid (set_lastPTS (set_lastSN (set_lastTS
              (Initialize 0 0 audio48k (mkPacket 1 1000)) 1000) 1) 0) true).
  exists audio_two_packets.
  split; [vm_compute; reflexivity |].
  destruct (GetPTS_learns_frameDuration t (mkPacket 2 1960) t (mkPacket 2 1960)
              1960 20000000 audio_two_packets (mkPacket 2 1960) (20000000, None))
    as (H1 & H2 & H3).
  - cbn. lia.
  - unfold is_i64. cbn. lia.
  - vm_compute. reflexivity.
  - reflexivity.
  - vm_compute. reflexivity.
  - vm_compute. reflexivity.
  - split; [exact H1 |].
    split; [intros Hne; rewrite (H2 Hne); vm_compute; reflexivity |].
    apply H3; reflexivity.
Defined.

(** ** C8: sender reports *)

Section SenderReportProperties.

Variable Time : Type.
Variable NtpTime_Time : Z -> Time.
Variable Time_Sub : Time -> Time -> Z.

(** C8. [onSenderReport] compares [pts] with the expected time, the
    report's NTP time minus [ntpStart].  When they differ, [ptsOffset]
    grows by [expected - pts] in int64 arithmetic, whatever its size, and
    nothing else changes; when the sum fits an int64 that is the exact
    sum.  When they are equal the track is unchanged.  The method has no
    failing path. *)
Theorem onSenderReport_folds_drift t pkt pts ntpStart :
  let expected := Time_Sub (NtpTime_Time (NTPTime pkt)) ntpStart in
  let t' := onSenderReport Time NtpTime_Time Time_Sub t pkt pts ntpStart in
  (pts <> expected ->
   t' = set_ptsOffset t (wrap64 (ptsOffset t + wrap64 (expected - pts)))
   /\ (is_i64 (expected - pts) -> is_i64 (ptsOffset t + (expected - pts)) ->
       ptsOffset t' = ptsOffset t + (expected - pts)))
  /\ (pts = expected -> t' = t).
Proof.
  intros expected t'. subst t'. unfold onSenderReport. fold expected.
  split.
  - intros Hne. apply Z.eqb_neq in Hne. rewrite Hne. cbn [negb].
    split; [reflexivity |]. intros H1 H2. cbn [ptsOffset set_ptsOffset].
    rewrite (wrap64_small _ H1). apply wrap64_small, H2.
  - intros He. apply Z.eqb_eq in He. rewrite He. reflexivity.
Qed.

Lemma TrackInv_onSenderReport t pkt pts ntpStart :
  TrackInv t ->
  TrackInv (onSenderReport Time NtpTime_Time Time_Sub t pkt pts ntpStart).
Proof.
  intros H. unfold onSenderReport.
  destruct (negb _); exact H.
Qed.

End SenderReportProperties.

(** Every state a caller can build satisfies the invariant. *)
Lemma Built_TrackInv t : Built t -> TrackInv t.
Proof.
  induction 1 as [track Hc | now start t pkt _ IH | t pkt t' pkt' r _ IH HF Hp H
                  | t pkt next t' pkt' next' r _ IH Hi H
                  | Time N S t pkt pts ntpStart _ IH].
  - apply TrackInv_new, Hc.
  - apply TrackInv_Initialize, IH.
  - eapply TrackInv_GetPTS; eauto using is_u32_i64.
  - eapply TrackInv_insertFrameBefore; eauto.
  - apply TrackInv_onSenderReport, IH.
Qed.

(** A report 5 ms ahead of the track, with times counted in nanoseconds. *)
Lemma onSenderReport_folds_drift_witness :
  let t' := onSenderReport Z (fun ntp => ntp) Z.sub audio_two_packets
              (mkSenderReport 25000000 1960) 20000000 0 in
  (20000000 <> 25000000 - 0 ->
   t' = set_ptsOffset audio_two_packets
          (wrap64 (ptsOffset audio_two_packets + wrap64 (25000000 - 0 - 20000000)))
   /\ (is_i64 (25000000 - 0 - 20000000) ->
       is_i64 (ptsOffset audio_two_packets + (25000000 - 0 - 20000000)) ->
       ptsOffset t' = ptsOffset audio_two_packets + (25000000 - 0 - 20000000)))
  /\ (20000000 = 25000000 - 0 -> t' = audio_two_packets).
Proof.
  exact (onSenderReport_folds_drift Z (fun ntp => ntp) Z.sub audio_two_packets
           (mkSenderReport 25000000 1960) 20000000 0).
Defined.

(** ** C1: the presentation clock can run backwards *)

(** C1 fails on the code.  An audio track at 48 kHz receives packets
    (1, 10) and (2, 970), then a stream restart (30000, 2^32 - 480), which
    takes the reset branch and stores the projected [lastTS = 1930], then
    the packet three frames later, (30003, 2400), whose timestamp has
    wrapped.  The loop compares the wrapped 2400 with the projected 1930,
    adds nothing, and the elapsed time is taken against a [firstTS] near
    2^32: the PTS falls from 40 ms to about -24.9 hours. *)
Theorem GetPTS_pts_decreases_after_reset_and_wrap :
  option_map fst
    (feed (Initialize 0 0 audio48k (mkPacket 1 10))
          [mkPacket 1 10; mkPacket 2 970;
           mkPacket 30000 4294966816; mkPacket 30003 2400])
  = Some [(0, None); (20000000, None); (40000000, None);
          (-89478385333333, None)].
Proof. vm_compute. reflexivity. Qed.

(** Without any wrap the reset branch already loses a nanosecond: it adds
    two separately rounded durations, and the packet after it rounds their
    sum.  A video track at 90 kHz and 24 frames per second, restarted, with
    a second packet in the restarted frame. *)
Lemma GetPTS_pts_decreases_by_rounding :
  option_map fst
    (feed (Initialize 0 0 video90k (mkPacket 1 1000))
          [mkPacket 1 1000; mkPacket 2 4750;
           mkPacket 30000 500000; mkPacket 30001 500000])
  = Some [(0, None); (41666667, None); (83333334, None); (83333333, None)].
Proof. vm_compute. reflexivity. Qed.

(** * Further properties of track.go *)

(** ** More fixed-width arithmetic *)

Lemma wrap64_decomp z : exists q, wrap64 z = z + q * 2 ^ 64.
Proof.
  exists (- ((z + 2 ^ 63) / 2 ^ 64)). unfold wrap64.
  rewrite Z.mod_eq by lia. lia.
Qed.

Lemma u16_wrap64 z : u16 (wrap64 z) = u16 z.
Proof.
  destruct (wrap64_decomp z) as [q ->]. unfold u16.
  replace (z + q * 2 ^ 64) with (z + (q * 2 ^ 48) * 2 ^ 16) by lia.
  apply Z.mod_add. lia.
Qed.

Lemma u32_wrap64 z : u32 (wrap64 z) = u32 z.
Proof.
  destruct (wrap64_decomp z) as [q ->]. unfold u32.
  replace (z + q * 2 ^ 64) with (z + (q * 2 ^ 32) * 2 ^ 32) by lia.
  apply Z.mod_add. lia.
Qed.

Lemma u32_add_l a b : u32 (u32 a + b) = u32 (a + b).
Proof. unfold u32. apply Zplus_mod_idemp_l. Qed.

Lemma wrap64_sub_l a b : wrap64 (wrap64 a - b) = wrap64 (a - b).
Proof.
  replace (wrap64 a - b) with (wrap64 a + - b) by lia.
  rewrite wrap64_add_l. reflexivity.
Qed.

Lemma wrap64_sub_r a b : wrap64 (a - wrap64 b) = wrap64 (a - b).
Proof.
  destruct (wrap64_decomp b) as [q ->]. apply wrap64_congr.
  replace (a - (b + q * 2 ^ 64)) with (a - b + (- q) * 2 ^ 64) by lia.
  apply Z.mod_add. lia.
Qed.

(** ** The unwrap loop finds the timestamp *)

(** The loop ends when some multiple of 2^32 lifts [ts] to [last] without
    leaving int64. *)
Lemma unwrap_loop_reaches fuel : forall last ts k,
  is_i64 ts -> 0 <= k ->
  last <= ts + k * uint32Overflow -> ts + k * uint32Overflow < 2 ^ 63 ->
  last - ts <= Z.of_nat fuel * uint32Overflow ->
  exists r, unwrap_loop fuel last ts = Some r.
Proof.
  unfold uint32Overflow, is_i64.
  induction fuel as [| fuel IH]; intros last ts k Hts Hk Hl Hb Hd;
    cbn [unwrap_loop]; unfold uint32Overflow; destruct (ts <? last) eqn:E;
    try (eexists; reflexivity).
  - apply Z.ltb_lt in E. lia.
  - apply Z.ltb_lt in E.
    rewrite wrap64_small by (unfold is_i64; lia).
    apply (IH last (ts + 4294967296) (k - 1)); lia.
Qed.

(** The result of the loop is the one value that is congruent to the raw
    timestamp and lies in the window of 2^32 starting at [last]. *)
Lemma unwrapTS_exact last raw d :
  0 <= last <= 2 ^ 63 - uint32Overflow ->
  0 <= d < uint32Overflow -> raw = u32 (last + d) ->
  unwrapTS last raw = Some (last + d).
Proof.
  unfold uint32Overflow. intros Hl Hd Hraw.
  assert (Hr : is_u32 raw).
  { subst raw. unfold is_u32, u32. apply Z.mod_pos_bound. lia. }
  destruct (unwrap_loop_terminates (unwrap_fuel last raw) last raw)
    as (r & Hrun & Hi & Hle & Hmod & Hlt);
    [apply is_u32_i64, Hr | unfold uint32Overflow; lia
     | apply unwrap_fuel_covers |].
  unfold unwrapTS. rewrite Hrun. f_equal.
  pose proof (unwrap_loop_ge _ _ _ _ Hrun) as Hge.
  assert (Hdone : last <= raw -> r = raw).
  { intros H. rewrite (unwrap_loop_done _ _ _ H) in Hrun. congruence. }
  unfold uint32Overflow, is_u32 in *.
  assert (Hm : (r - (last + d)) mod 4294967296 = 0).
  { subst raw. unfold u32 in Hmod. change (2 ^ 32) with 4294967296 in Hmod.
    rewrite Zminus_mod_idemp_r in Hmod. exact Hmod. }
  apply Z.mod_divide in Hm; [| lia]. destruct Hm as [q Hq].
  change (2 ^ 32) with 4294967296 in Hr.
  assert (q = 0) by (destruct (Z.lt_ge_cases raw last); [| specialize (Hdone H)]; nia).
  lia.
Qed.

(** X1. Absent a reset, [adjust] recovers the 64-bit timestamp from the
    32-bit one: if the packet's timestamp is [lastTS + d] cut to 32 bits,
    for a forward distance [d] below 2^32, then [ts = lastTS + d], also
    when the 32-bit counter has wrapped in between. *)
Theorem adjust_unwraps_forward_distance t pkt d :
  needsReset t (correctedSN t pkt) = false ->
  0 <= lastTS t <= 2 ^ 63 - uint32Overflow ->
  0 <= d < uint32Overflow ->
  Timestamp pkt = u32 (lastTS t + d) ->
  exists pkt' pts valid,
    adjust t pkt = Some (t, pkt', (lastTS t + d, pts, valid))
    /\ u32 (lastTS t + d) = Timestamp pkt'.
Proof.
  intros R Hl Hd Hts. rewrite (adjust_no_reset _ _ R).
  rewrite (unwrapTS_exact _ _ _ Hl Hd Hts).
  destruct (lastTS t + d =? lastTS t); do 3 eexists;
    (split; [reflexivity | symmetry; exact Hts]).
Qed.

Lemma adjust_unwraps_forward_distance_witness :
  exists pkt' pts valid,
    adjust audio_before_wrap (mkPacket 3 480)
    = Some (audio_before_wrap, pkt', (lastTS audio_before_wrap + 960, pts, valid))
    /\ u32 (lastTS audio_before_wrap + 960) = Timestamp pkt'.
Proof.
  apply (adjust_unwraps_forward_distance audio_before_wrap (mkPacket 3 480) 960).
  - vm_compute. reflexivity.
  - unfold uint32Overflow. cbn. lia.
  - unfold uint32Overflow. lia.
  - vm_compute. reflexivity.
Defined.

(** ** Packets of one frame *)

(** X2. A packet that does not reset and whose timestamp is the stored
    [lastTS] cut to 32 bits gets the stored [lastTS], [lastPTS] and
    [lastValid] from [adjust]; unless the stream has ended, [GetPTS]
    returns [lastPTS] again and the three stored values stay as they are.
    [lastTS] is what the last returning call stored: after a reset that is
    the projected timestamp, not the timestamp the packet carried. *)
Theorem GetPTS_same_timestamp_same_pts t pkt :
  needsReset t (correctedSN t pkt) = false ->
  0 <= lastTS t <= 2 ^ 63 - uint32Overflow ->
  Timestamp pkt = u32 (lastTS t) ->
  exists pkt',
    adjust t pkt = Some (t, pkt', (lastTS t, lastPTS t, lastValid t))
    /\ (pastEnd t (lastPTS t) (lastValid t) = false ->
        exists t',
          GetPTS t pkt = Some (t', pkt', (lastPTS t, None))
          /\ lastTS t' = lastTS t /\ lastPTS t' = lastPTS t
          /\ lastValid t' = lastValid t).
Proof.
  intros R Hl Hts.
  assert (Ha : adjust t pkt
               = Some (t, mkPacket (correctedSN t pkt) (Timestamp pkt),
                       (lastTS t, lastPTS t, lastValid t))).
  { rewrite (adjust_no_reset _ _ R).
    rewrite (unwrapTS_exact (lastTS t) (Timestamp pkt) 0), Z.add_0_r, Z.eqb_refl;
      [reflexivity | exact Hl | unfold uint32Overflow; lia
       | rewrite Z.add_0_r; exact Hts]. }
  eexists. split; [exact Ha |].
  intros Hend. rewrite (GetPTS_eq _ _ _ _ _ _ _ Ha). cbn zeta. rewrite Hend.
  eexists. split; [reflexivity |].
  destruct (learnsDuration t _ (lastValid t)); repeat split.
Qed.

Lemma GetPTS_same_timestamp_same_pts_witness :
  exists pkt',
    adjust video_two_packets (mkPacket 3 4000)
    = Some (video_two_packets, pkt',
            (lastTS video_two_packets, lastPTS video_two_packets,
             lastValid video_two_packets))
    /\ (pastEnd video_two_packets (lastPTS video_two_packets)
          (lastValid video_two_packets) = false ->
        exists t',
          GetPTS video_two_packets (mkPacket 3 4000)
          = Some (t', pkt', (lastPTS video_two_packets, None))
          /\ lastTS t' = lastTS video_two_packets
          /\ lastPTS t' = lastPTS video_two_packets
          /\ lastValid t' = lastValid video_two_packets).
Proof.
  apply (GetPTS_same_timestamp_same_pts video_two_packets (mkPacket 3 4000)).
  - vm_compute. reflexivity.
  - unfold uint32Overflow. cbn. lia.
  - vm_compute. reflexivity.
Defined.

(** ** When the unwrap loop does not end *)

Lemma unwrapTS_None_iff last raw :
  is_u32 raw ->
  (unwrapTS last raw = None <-> raw + (2 ^ 31 - 1) * uint32Overflow < last).
Proof.
  intros Hr. pose proof (is_u32_i64 _ Hr) as Hi. split.
  - intros HN.
    destruct (Z.lt_ge_cases (raw + (2 ^ 31 - 1) * uint32Overflow) last) as [H | H];
      [exact H |].
    destruct (unwrap_loop_reaches (unwrap_fuel last raw) last raw (2 ^ 31 - 1))
      as (r & Hrun);
      [exact Hi | lia | lia | unfold uint32Overflow, is_u32 in *; lia
       | apply unwrap_fuel_covers |].
    unfold unwrapTS in HN. congruence.
  - intros Hlt. destruct (unwrapTS last raw) as [r |] eqn:E; [| reflexivity].
    exfalso. unfold unwrapTS in E.
    pose proof (unwrap_loop_ge _ _ _ _ E) as Hge.
    destruct (unwrap_loop_sound _ _ _ _ Hi E) as (Hri & Hle & Hm).
    unfold uint32Overflow, is_u32, is_i64 in *.
    apply Z.mod_divide in Hm; [| lia]. destruct Hm as [q Hq].
    assert (q < 2 ^ 31) by nia. nia.
Qed.

(** X3. [GetPTS] fails to return in exactly one situation: the packet
    does not reset and [lastTS] is so close to the largest int64 that no
    value [Timestamp + k * 2^32] below 2^63 reaches it.  The addition in
    the loop then overflows and the loop runs forever, whatever the number
    of iterations allowed. *)
Theorem GetPTS_never_returns_iff t pkt :
  is_u32 (Timestamp pkt) ->
  (GetPTS t pkt = None <->
   needsReset t (correctedSN t pkt) = false
   /\ Timestamp pkt + (2 ^ 31 - 1) * uint32Overflow < lastTS t)
  /\ (GetPTS t pkt = None ->
      forall fuel, unwrap_loop fuel (lastTS t) (Timestamp pkt) = None).
Proof.
  intros Hp.
  assert (Hiff : GetPTS t pkt = None <->
                 needsReset t (correctedSN t pkt) = false
                 /\ unwrapTS (lastTS t) (Timestamp pkt) = None).
  { split.
    - intros HN.
      destruct (adjust t pkt) as [[[t1 pkt1] [[ts pts] valid]] |] eqn:Ha.
      + rewrite (GetPTS_eq _ _ _ _ _ _ _ Ha) in HN. cbn zeta in HN.
        destruct (pastEnd t pts valid); discriminate.
      + destruct (needsReset t (correctedSN t pkt)) eqn:R.
        * rewrite (adjust_reset _ _ R) in Ha. discriminate.
        * split; [reflexivity |]. rewrite (adjust_no_reset _ _ R) in Ha.
          destruct (unwrapTS (lastTS t) (Timestamp pkt)) as [u |]; [| reflexivity].
          destruct (u =? lastTS t); discriminate.
    - intros (R & HN). unfold GetPTS. rewrite (adjust_no_reset _ _ R), HN.
      reflexivity. }
  split.
  - rewrite Hiff, (unwrapTS_None_iff _ _ Hp). reflexivity.
  - intros HN fuel. apply Hiff in HN. destruct HN as (_ & HN).
    destruct (unwrap_loop fuel (lastTS t) (Timestamp pkt)) as [r |] eqn:E;
      [| reflexivity].
    rewrite (unwrap_loop_fuel_adequate _ _ _ _ (is_u32_i64 _ Hp) E) in HN.
    discriminate.
Qed.

Lemma GetPTS_never_returns_iff_witness :
  (GetPTS (set_lastTS audio_two_packets (2 ^ 63 - 1)) (mkPacket 3 480) = None <->
   needsReset (set_lastTS audio_two_packets (2 ^ 63 - 1))
     (correctedSN (set_lastTS audio_two_packets (2 ^ 63 - 1)) (mkPacket 3 480)) = false
   /\ Timestamp (mkPacket 3 480) + (2 ^ 31 - 1) * uint32Overflow
      < lastTS (set_lastTS audio_two_packets (2 ^ 63 - 1)))
  /\ (GetPTS (set_lastTS audio_two_packets (2 ^ 63 - 1)) (mkPacket 3 480) = None ->
      forall fuel,
        unwrap_loop fuel (lastTS (set_lastTS audio_two_packets (2 ^ 63 - 1)))
          (Timestamp (mkPacket 3 480)) = None).
Proof.
  apply (GetPTS_never_returns_iff (set_lastTS audio_two_packets (2 ^ 63 - 1))
           (mkPacket 3 480)).
  unfold is_u32. cbn. lia.
Defined.

(** ** What GetPTS and the insertions leave alone *)

(** X4. [GetPTS] never changes [ptsOffset], [maxPTS], [startedAt],
    [rtpDuration], [defaultFrameDuration], [lastPTSDrift] or [trackID], and
    whenever it returns, also with [io.EOF], [inserted] is zero. *)
Theorem GetPTS_leaves_offsets t pkt t' pkt' r :
  GetPTS t pkt = Some (t', pkt', r) ->
  ptsOffset t' = ptsOffset t /\ maxPTS t' = maxPTS t
  /\ startedAt t' = startedAt t /\ rtpDuration t' = rtpDuration t
  /\ defaultFrameDuration t' = defaultFrameDuration t
  /\ lastPTSDrift t' = lastPTSDrift t /\ trackID t' = trackID t
  /\ inserted t' = 0.
Proof.
  intros H.
  destruct (adjust t pkt) as [[[t1 pkt1] [[ts pts] valid]] |] eqn:Ha;
    [| unfold GetPTS in H; rewrite Ha in H; discriminate].
  rewrite (GetPTS_eq _ _ _ _ _ _ _ Ha) in H. cbn zeta in H.
  destruct (adjust_frame _ _ _ _ _ Ha)
    as (H1 & H2 & _ & H4 & H5 & H6 & _ & _ & _ & _ & _ & H12 & H13).
  destruct (learnsDuration t pkt1 valid), (pastEnd t pts valid);
    injection H as <- _ _; cbn; repeat split; assumption.
Qed.

Lemma GetPTS_leaves_offsets_witness :
  ptsOffset audio_ending = ptsOffset audio_ending
  /\ maxPTS audio_ending = maxPTS audio_ending
  /\ startedAt audio_ending = startedAt audio_ending
  /\ rtpDuration audio_ending = rtpDuration audio_ending
  /\ defaultFrameDuration audio_ending = defaultFrameDuration audio_ending
  /\ lastPTSDrift audio_ending = lastPTSDrift audio_ending
  /\ trackID audio_ending = trackID audio_ending
  /\ inserted audio_ending = 0.
Proof.
  apply (GetPTS_leaves_offsets audio_ending (mkPacket 3 2920) audio_ending
           (mkPacket 3 2920) (0, Some EOF)).
  vm_compute. reflexivity.
Defined.

(** X5. An insertion, refused or not, never changes the last real packet's
    [lastSN], [lastTS] and [lastPTS], nor [frameDuration], [ptsOffset],
    [maxPTS], [startedAt], [rtpDuration] or [defaultFrameDuration]; it
    always leaves [lastValid] false and [inserted] one higher. *)
Theorem insertFrameBefore_leaves_last_packet t pkt next t' pkt' next' r :
  InsertFrameBefore t pkt next = Some (t', pkt', next', r) ->
  lastSN t' = lastSN t /\ lastTS t' = lastTS t /\ lastPTS t' = lastPTS t
  /\ frameDuration t' = frameDuration t /\ ptsOffset t' = ptsOffset t
  /\ maxPTS t' = maxPTS t /\ startedAt t' = startedAt t
  /\ rtpDuration t' = rtpDuration t
  /\ defaultFrameDuration t' = defaultFrameDuration t
  /\ lastValid t' = false /\ inserted t' = wrap64 (inserted t + 1).
Proof.
  unfold InsertFrameBefore. intros H.
  assert (Hb : exists tb nb rb,
             t' = tb
             /\ (tb = insertBump t \/ exists nxt, adjust (insertBump t) nxt = Some (tb, nb, rb))).
  { destruct next as [nxt |].
    - destruct (adjust (insertBump t) nxt)
        as [[[t1 nxt1] [[nextTS npts] nvalid]] |] eqn:Ha.
      + rewrite (insertFrameBefore_next _ _ _ _ _ _ _ _ Ha) in H.
        exists t1, nxt1, (nextTS, npts, nvalid). split; [| right; eauto].
        destruct (nextTS <? wrap64 (insertTS t + getFrameDurationRTP t));
          injection H as <- _ _ _; reflexivity.
      + unfold insertFrameBefore in H. cbv zeta in H.
        change (adjust _ nxt) with (adjust (insertBump t) nxt) in H.
        rewrite Ha in H. discriminate.
    - rewrite insertFrameBefore_nil in H. injection H as <- _ _ _.
      exists (insertBump t), pkt, (0, 0, false). auto. }
  destruct Hb as (tb & nb & rb & -> & [-> | (nxt & Ha)]).
  - repeat split.
  - destruct (adjust_frame _ _ _ _ _ Ha)
      as (_ & H2 & H3 & H4 & H5 & H6 & H7 & H8 & H9 & H10 & H11 & H12 & _).
    rewrite H2, H3, H4, H5, H6, H7, H8, H9, H10, H11, H12. repeat split.
Qed.

Lemma insertFrameBefore_leaves_last_packet_witness :
  lastSN (insertBump audio_two_packets) = lastSN audio_two_packets
  /\ lastTS (insertBump audio_two_packets) = lastTS audio_two_packets
  /\ lastPTS (insertBump audio_two_packets) = lastPTS audio_two_packets
  /\ frameDuration (insertBump audio_two_packets) = frameDuration audio_two_packets
  /\ ptsOffset (insertBump audio_two_packets) = ptsOffset audio_two_packets
  /\ maxPTS (insertBump audio_two_packets) = maxPTS audio_two_packets
  /\ startedAt (insertBump audio_two_packets) = startedAt audio_two_packets
  /\ rtpDuration (insertBump audio_two_packets) = rtpDuration audio_two_packets
  /\ defaultFrameDuration (insertBump audio_two_packets)
     = defaultFrameDuration audio_two_packets
  /\ lastValid (insertBump audio_two_packets) = false
  /\ inserted (insertBump audio_two_packets) = wrap64 (inserted audio_two_packets + 1).
Proof.
  apply (insertFrameBefore_leaves_last_packet audio_two_packets (mkPacket 0 0)
           (Some (mkPacket 3 3879)) (insertBump audio_two_packets) (mkPacket 0 0)
           (Some (mkPacket 4 3879)) (0, false)).
  vm_compute. reflexivity.
Defined.

(** ** The first packet *)

(** For a clock rate that is not zero, [rtpDuration] is a finite
    non-negative number. *)
Lemma rtpDuration_new_finite track :
  0 < ClockRate track < 2 ^ 32 ->
  match rtpDuration (newTrackSynchronizer track) with
  | S754_zero _ => True
  | S754_finite false m e => e <= 0 /\ Z.pos m < 2 ^ 63
  | _ => False
  end.
Proof.
  intros [Hlo Hhi]. unfold newTrackSynchronizer. cbn [rtpDuration].
  destruct (ClockRate track) as [| c | c]; try lia.
  pose proof (Zdigits2_le (Z.pos c) 32 ltac:(lia) ltac:(lia)) as Hd.
  cbn [Zdigits2] in Hd.
  replace (F64.of_int 1000000000)
    with (S754_finite false 8388608000000000 (-23)) by reflexivity.
  rewrite of_int_pos by lia.
  unfold F64.div, SFdiv.
  destruct (SFdiv_core_small 8388608000000000 (-23)
              (Pos.iter xO c (Z.to_pos (53 - Z.pos (digits2_pos c))))
              (Z.pos (digits2_pos c) - 53))
    as (q & l & -> & Hq); [reflexivity | | lia |].
  - rewrite digits2_pos_iter_xO. lia.
  - cbn [xorb]. apply binary_round_aux_small; [exact Hq | lia].
Qed.

Lemma rtpToDuration_0 t :
  match rtpDuration t with
  | S754_zero _ => True
  | S754_finite false m e => e <= 0 /\ Z.pos m < 2 ^ 63
  | _ => False
  end -> rtpToDuration t 0 = 0.
Proof.
  unfold rtpToDuration.
  destruct (rtpDuration t) as [s | s | | [|] m e]; try contradiction; reflexivity.
Qed.

Lemma wrap64_idem z : wrap64 (wrap64 z) = wrap64 z.
Proof. apply wrap64_small, wrap64_range. Qed.

(** X6. The first packet after [Initialize] gets the PTS
    [now - sessionStart], the offset of this track in its session: for
    every clock rate that is not zero and every first packet whose
    timestamp is not zero, [GetPTS] on the packet given to [Initialize]
    returns it with no error, leaves the packet as it is, and records it as
    a valid previous packet without a frame duration. *)
Theorem first_GetPTS_is_session_offset track now start pkt :
  0 < ClockRate track < 2 ^ 32 -> Packet_ok pkt -> Timestamp pkt <> 0 ->
  exists t',
    GetPTS (Initialize now start (newTrackSynchronizer track) pkt) pkt
    = Some (t', pkt, (wrap64 (now - start), None))
    /\ lastValid t' = true /\ lastTS t' = Timestamp pkt
    /\ lastSN t' = SequenceNumber pkt /\ lastPTS t' = wrap64 (now - start)
    /\ frameDuration t' = 0.
Proof.
  intros Hc [Hsn Hts] Hne.
  set (t0 := Initialize now start (newTrackSynchronizer track) pkt).
  assert (R : needsReset t0 (correctedSN t0 pkt) = false) by reflexivity.
  assert (Hu : unwrapTS (lastTS t0) (Timestamp pkt) = Some (Timestamp pkt)).
  { unfold unwrapTS. apply unwrap_loop_done. unfold is_u32 in Hts. cbn. lia. }
  assert (Hel : getElapsed t0 (Timestamp pkt) = 0).
  { unfold getElapsed. change (firstTS t0) with (Timestamp pkt).
    rewrite Z.sub_diag. change (wrap64 0) with 0.
    apply rtpToDuration_0. apply (rtpDuration_new_finite track Hc). }
  assert (Ha : adjust t0 pkt
               = Some (t0, pkt, (Timestamp pkt, wrap64 (now - start), true))).
  { rewrite (adjust_no_reset _ _ R), Hu.
    change (lastTS t0) with 0.
    destruct (Timestamp pkt =? 0) eqn:E; [apply Z.eqb_eq in E; contradiction |].
    rewrite Hel. change (ptsOffset t0) with (wrap64 (now - start)).
    rewrite Z.add_0_l, wrap64_idem.
    unfold correctedSN. change (snOffset t0) with 0.
    rewrite Z.add_0_r, (u16_small _ Hsn). destruct pkt; reflexivity. }
  rewrite (GetPTS_eq _ _ _ _ _ _ _ Ha). cbn zeta.
  eexists. split; [reflexivity |]. repeat split.
Qed.

Lemma first_GetPTS_is_session_offset_witness :
  exists t',
    GetPTS (Initialize 1005 1000 audio48k (mkPacket 7 1000)) (mkPacket 7 1000)
    = Some (t', mkPacket 7 1000, (wrap64 (1005 - 1000), None))
    /\ lastValid t' = true /\ lastTS t' = Timestamp (mkPacket 7 1000)
    /\ lastSN t' = SequenceNumber (mkPacket 7 1000)
    /\ lastPTS t' = wrap64 (1005 - 1000)
    /\ frameDuration t' = 0.
Proof.
  apply (first_GetPTS_is_session_offset
           (mkTrackRemote "audio" 48000 RTPCodecTypeAudio) 1005 1000
           (mkPacket 7 1000)).
  - cbn. lia.
  - unfold Packet_ok, is_u16, is_u32. cbn. lia.
  - cbn. discriminate.
Defined.

(** X7. A first packet whose timestamp is zero is taken for a repeat of
    "no packet yet": whatever the session offset, [GetPTS] returns PTS 0,
    and the track still has [lastTS = 0] and [lastValid = false] after it,
    so the packet after it is treated as the first again. *)
Theorem first_GetPTS_timestamp_zero track now start pkt :
  Packet_ok pkt -> Timestamp pkt = 0 ->
  exists t',
    GetPTS (Initialize now start (newTrackSynchronizer track) pkt) pkt
    = Some (t', pkt, (0, None))
    /\ lastValid t' = false /\ lastTS t' = 0 /\ lastPTS t' = 0
    /\ ptsOffset t' = wrap64 (now - start).
Proof.
  intros [Hsn _] Hz. destruct pkt as [sn ts]. cbn in Hsn, Hz. subst ts.
  set (t0 := Initialize now start (newTrackSynchronizer track) (mkPacket sn 0)).
  assert (R : needsReset t0 (correctedSN t0 (mkPacket sn 0)) = false)
    by reflexivity.
  assert (Ha : adjust t0 (mkPacket sn 0)
               = Some (t0, mkPacket sn 0, (0, 0, false))).
  { rewrite (adjust_no_reset _ _ R).
    change (unwrapTS (lastTS t0) (Timestamp (mkPacket sn 0))) with (Some 0).
    change (0 =? lastTS t0) with true. cbv iota.
    unfold correctedSN. change (snOffset t0) with 0. cbn [SequenceNumber Timestamp].
    rewrite Z.add_0_r, (u16_small _ Hsn). reflexivity. }
  rewrite (GetPTS_eq _ _ _ _ _ _ _ Ha). cbn zeta.
  eexists. split; [reflexivity |]. repeat split.
Qed.

Lemma first_GetPTS_timestamp_zero_witness :
  exists t',
    GetPTS (Initialize 1005 1000 audio48k (mkPacket 7 0)) (mkPacket 7 0)
    = Some (t', mkPacket 7 0, (0, None))
    /\ lastValid t' = false /\ lastTS t' = 0 /\ lastPTS t' = 0
    /\ ptsOffset t' = wrap64 (1005 - 1000).
Proof.
  apply (first_GetPTS_timestamp_zero
           (mkTrackRemote "audio" 48000 RTPCodecTypeAudio) 1005 1000 (mkPacket 7 0)).
  - unfold Packet_ok, is_u16, is_u32. cbn. lia.
  - reflexivity.
Defined.

(** ** Runs of inserted frames *)

Lemma InsertFrame_eq t pkt :
  InsertFrame t pkt = Some (insertBump t, insertedPacket t, insertPTS t).
Proof. unfold InsertFrame. rewrite insertFrameBefore_nil. reflexivity. Qed.

Lemma u16_wrap64_add a b : u16 (a + wrap64 b) = u16 (a + b).
Proof. rewrite <- u16_add_r, u16_wrap64, u16_add_r. reflexivity. Qed.

Lemma u32_wrap64_add_mul a b c : u32 (a + wrap64 b * c) = u32 (a + b * c).
Proof.
  destruct (wrap64_decomp b) as [q ->]. unfold u32.
  replace (a + (b + q * 2 ^ 64) * c) with (a + b * c + (q * 2 ^ 32 * c) * 2 ^ 32)
    by ring.
  apply Z.mod_add. lia.
Qed.

Lemma insertedPacket_eq t :
  insertedPacket t
  = mkPacket (u16 (lastSN t + inserted t + 1))
             (u32 (lastTS t + (inserted t + 1) * getFrameDurationRTP t)).
Proof.
  unfold insertedPacket, insertTS. f_equal.
  - rewrite u16_add_r, u16_wrap64_add. f_equal. lia.
  - rewrite u32_wrap64, wrap64_mul_l.
    replace (lastTS t + wrap64 ((inserted t + 1) * getFrameDurationRTP t))
      with (lastTS t + wrap64 ((inserted t + 1) * getFrameDurationRTP t) * 1) by lia.
    rewrite u32_wrap64_add_mul. f_equal. lia.
Qed.

(** What a run of [n] insertions returns and leaves. *)
Lemma insertFrames_spec n : forall t,
  exists pkts t',
    insertFrames n t = Some (pkts, t')
    /\ List.length pkts = n
    /\ (forall k, (k < n)%nat ->
        nth k pkts (mkPacket 0 0)
        = mkPacket (u16 (lastSN t + inserted t + Z.of_nat k + 1))
            (u32 (lastTS t
                  + (inserted t + Z.of_nat k + 1) * getFrameDurationRTP t)))
    /\ u16 (snOffset t') = u16 (snOffset t + Z.of_nat n)
    /\ wrap64 (inserted t') = wrap64 (inserted t + Z.of_nat n)
    /\ lastSN t' = lastSN t /\ lastTS t' = lastTS t /\ lastPTS t' = lastPTS t
    /\ maxPTS t' = maxPTS t.
Proof.
  induction n as [| n IH]; intros t.
  - exists [], t. cbn [insertFrames List.length]. rewrite !Z.add_0_r.
    repeat split. intros k Hk. lia.
  - destruct (IH (insertBump t))
      as (pkts & t' & Hrun & Hlen & Hnth & Hoff & Hins & Hsn & Hts & Hpts & Hmax).
    exists (insertedPacket t :: pkts), t'.
    cbn [insertFrames]. rewrite InsertFrame_eq, Hrun.
    split; [reflexivity |]. split; [cbn; lia |].
    change (lastSN (insertBump t)) with (lastSN t) in *.
    change (lastTS (insertBump t)) with (lastTS t) in *.
    change (lastPTS (insertBump t)) with (lastPTS t) in *.
    change (maxPTS (insertBump t)) with (maxPTS t) in *.
    change (getFrameDurationRTP (insertBump t)) with (getFrameDurationRTP t) in *.
    change (inserted (insertBump t)) with (wrap64 (inserted t + 1)) in *.
    change (snOffset (insertBump t)) with (u16 (snOffset t + 1)) in *.
    split; [| repeat split; try assumption].
    + intros [| k] Hk; cbn [nth].
      * rewrite insertedPacket_eq. cbn [Z.of_nat]. rewrite !Z.add_0_r. reflexivity.
      * rewrite (Hnth k) by lia. rewrite Nat2Z.inj_succ. f_equal.
        -- replace (lastSN t + wrap64 (inserted t + 1) + Z.of_nat k + 1)
             with (lastSN t + Z.of_nat k + 1 + wrap64 (inserted t + 1)) by lia.
           rewrite u16_wrap64_add. f_equal. lia.
        -- replace ((wrap64 (inserted t + 1) + Z.of_nat k + 1) * getFrameDurationRTP t)
             with ((Z.of_nat k + 1) * getFrameDurationRTP t
                   + wrap64 (inserted t + 1) * getFrameDurationRTP t) by ring.
           rewrite Z.add_assoc, u32_wrap64_add_mul. f_equal. ring.
    + rewrite Hoff, u16_add_l, Nat2Z.inj_succ. f_equal. lia.
    + rewrite Hins, wrap64_add_l, Nat2Z.inj_succ. f_equal. lia.
Qed.

(** X8. A run of [n] calls of [InsertFrame] always succeeds, and its
    packets continue the stream: the [k]-th of them (from 0) carries the
    sequence number [lastSN + inserted + k + 1] and the timestamp
    [lastTS + (inserted + k + 1) * frameDuration], cut to 16 and 32 bits. *)
Theorem insertFrames_numbering n t :
  exists pkts t',
    insertFrames n t = Some (pkts, t')
    /\ List.length pkts = n
    /\ forall k, (k < n)%nat ->
         nth k pkts (mkPacket 0 0)
         = mkPacket (u16 (lastSN t + inserted t + Z.of_nat k + 1))
             (u32 (lastTS t
                   + (inserted t + Z.of_nat k + 1) * getFrameDurationRTP t)).
Proof.
  destruct (insertFrames_spec n t) as (pkts & t' & H1 & H2 & H3 & _).
  exists pkts, t'. auto.
Qed.

Lemma correctedSN_after_insertions n t t' p :
  u16 (snOffset t') = u16 (snOffset t + Z.of_nat n) ->
  correctedSN t p = u16 (lastSN t + inserted t + 1) ->
  correctedSN t' p = u16 (lastSN t + inserted t + Z.of_nat n + 1).
Proof.
  unfold correctedSN. intros Hoff Hc.
  rewrite <- u16_add_r, Hoff, u16_add_r.
  replace (SequenceNumber p + (snOffset t + Z.of_nat n))
    with (SequenceNumber p + snOffset t + Z.of_nat n) by lia.
  rewrite <- u16_add_l, Hc, u16_add_l. f_equal. lia.
Qed.

Lemma u16_sub_cancel a b : u16 (u16 (a + b) - a) = u16 b.
Proof. rewrite u16_sub_l. f_equal. lia. Qed.

Lemma u16_sub_cancel_neg a b : u16 (a - u16 (a + b)) = u16 (- b).
Proof.
  unfold u16. rewrite Zminus_mod_idemp_r. f_equal. lia.
Qed.



(** X10. The dropout test also sees inserted frames.  Once between 3000
    and 62534 frames have been inserted since the last real packet, the
    real packet that follows the stream takes the reset branch: [GetPTS]
    returns, and the packet leaves with the sequence number [lastSN + 1],
    the number the first inserted frame of the run already carries when
    the run started at [inserted = 0]. *)
Theorem GetPTS_after_3000_insertions_resets n t p :
  lastTS t <> 0 -> 0 <= inserted t ->
  3000 <= inserted t + Z.of_nat n <= 62534 ->
  correctedSN t p = u16 (lastSN t + inserted t + 1) ->
  exists pkts t' t2 r,
    insertFrames n t = Some (pkts, t')
    /\ GetPTS t' p = Some (t2, mkPacket (u16 (lastSN t + 1)) (Timestamp p), r)
    /\ (inserted t = 0 ->
        SequenceNumber (nth 0 pkts (mkPacket 0 0)) = u16 (lastSN t + 1)).
Proof.
  intros Hl Hi Hn Hc.
  destruct (insertFrames_spec n t)
    as (pkts & t' & Hrun & _ & Hnth & Hoff & _ & Hsn & Hts & _).
  pose proof (correctedSN_after_insertions _ _ _ _ Hoff Hc) as Hc'.
  assert (R : needsReset t' (correctedSN t' p) = true).
  { apply needsReset_true; rewrite ?Hts, ?Hc', ?Hsn; [exact Hl | |];
      replace (lastSN t + inserted t + Z.of_nat n + 1)
        with (lastSN t + (inserted t + Z.of_nat n + 1)) by lia.
    - rewrite u16_sub_cancel, u16_small by (unfold is_u16; lia).
      unfold maxSNDropout. lia.
    - rewrite u16_sub_cancel_neg. unfold u16, maxSNDropout.
      replace (- (inserted t + Z.of_nat n + 1))
        with (65536 - (inserted t + Z.of_nat n + 1) + (-1) * 2 ^ 16) by lia.
      rewrite Z.mod_add by lia. rewrite Z.mod_small; lia. }
  pose proof (adjust_reset _ _ R) as Ha. rewrite Hsn in Ha.
  pose proof (GetPTS_eq _ _ _ _ _ _ _ Ha) as HG. cbn zeta in HG.
  exists pkts, t'.
  destruct (pastEnd t' _ false); do 2 eexists;
    (split; [exact Hrun |]); (split; [exact HG |]);
    intros H0; rewrite (Hnth 0%nat) by lia; cbn [SequenceNumber Z.of_nat];
    rewrite H0; f_equal; lia.
Qed.

Lemma GetPTS_after_3000_insertions_resets_witness :
  exists pkts t' t2 r,
    insertFrames 3000 audio_two_packets = Some (pkts, t')
    /\ GetPTS t' (mkPacket 3 2881960)
       = Some (t2, mkPacket (u16 (lastSN audio_two_packets + 1))
                     (Timestamp (mkPacket 3 2881960)), r)
    /\ (inserted audio_two_packets = 0 ->
        SequenceNumber (nth 0 pkts (mkPacket 0 0))
        = u16 (lastSN audio_two_packets + 1)).
Proof.
  apply (GetPTS_after_3000_insertions_resets 3000 audio_two_packets
           (mkPacket 3 2881960)).
  - cbn. discriminate.
  - cbn. lia.
  - cbn. lia.
  - vm_compute. reflexivity.
Defined.

(** ** After a reset *)

(** X11. The reset branch moves [firstTS] so that the packet's own raw
    timestamp is as far from the new [firstTS] as the projected timestamp
    [ts] is from the old one: the elapsed time of the raw timestamp on the
    track after the reset is the elapsed time of [ts] on the track before
    it. *)
Theorem adjust_reset_reanchors t pkt :
  needsReset t (correctedSN t pkt) = true ->
  exists t' pkt' ts pts,
    adjust t pkt = Some (t', pkt', (ts, pts, false))
    /\ wrap64 (Timestamp pkt - firstTS t') = wrap64 (ts - firstTS t)
    /\ getElapsed t' (Timestamp pkt) = getElapsed t ts.
Proof.
  intros R. rewrite (adjust_reset _ _ R). do 4 eexists.
  split; [reflexivity |].
  set (ts := wrap64 (lastTS t + resetTsOffset t)).
  assert (H : wrap64 (Timestamp pkt - firstTS (resetState t pkt))
              = wrap64 (ts - firstTS t)).
  { unfold resetState. cbn [firstTS set_firstTS]. fold ts.
    rewrite wrap64_sub_r.
    replace (Timestamp pkt - (firstTS t + wrap64 (Timestamp pkt - ts)))
      with (Timestamp pkt - firstTS t - wrap64 (Timestamp pkt - ts)) by lia.
    rewrite wrap64_sub_r. f_equal. lia. }
  split; [exact H |].
  unfold getElapsed. rewrite H. reflexivity.
Qed.

Lemma adjust_reset_reanchors_witness :
  exists t' pkt' ts pts,
    adjust audio_two_packets (mkPacket 40000 77) = Some (t', pkt', (ts, pts, false))
    /\ wrap64 (Timestamp (mkPacket 40000 77) - firstTS t')
       = wrap64 (ts - firstTS audio_two_packets)
    /\ getElapsed t' (Timestamp (mkPacket 40000 77)) = getElapsed audio_two_packets ts.
Proof.
  apply (adjust_reset_reanchors audio_two_packets (mkPacket 40000 77)).
  vm_compute. reflexivity.
Defined.

(** ** Sender reports against the packet stream *)

Lemma unwrapTS_in_window last raw v :
  last <= 2 ^ 63 - uint32Overflow ->
  last <= v < last + uint32Overflow -> 0 <= v -> raw = u32 v ->
  unwrapTS last raw = Some v.
Proof.
  unfold uint32Overflow. intros Hl Hv H0 Hraw.
  assert (Hr : is_u32 raw).
  { subst raw. unfold is_u32, u32. apply Z.mod_pos_bound. lia. }
  destruct (unwrap_loop_terminates (unwrap_fuel last raw) last raw)
    as (r & Hrun & Hi & Hle & Hmod & Hlt);
    [apply is_u32_i64, Hr | unfold uint32Overflow; lia
     | apply unwrap_fuel_covers |].
  unfold unwrapTS. rewrite Hrun. f_equal.
  pose proof (unwrap_loop_ge _ _ _ _ Hrun) as Hge.
  assert (Hdone : last <= raw -> r = raw).
  { intros H. rewrite (unwrap_loop_done _ _ _ H) in Hrun. congruence. }
  unfold uint32Overflow, is_u32 in *.
  assert (Hm : (r - v) mod 4294967296 = 0).
  { subst raw. unfold u32 in Hmod. change (2 ^ 32) with 4294967296 in Hmod.
    rewrite Zminus_mod_idemp_r in Hmod. exact Hmod. }
  apply Z.mod_divide in Hm; [| lia]. destruct Hm as [q Hq].
  change (2 ^ 32) with 4294967296 in Hr.
  assert (q = 0) by (destruct (Z.lt_ge_cases raw last); [| specialize (Hdone H)]; nia).
  lia.
Qed.

(** X12. [getSenderReportPTS] places a report within half of the 32-bit
    span around the last packet: when the report's RTP time is
    [lastTS + d] cut to 32 bits, with [d] from -2^31 up to 2^31 - 1 and
    [lastTS + d] not negative, the returned PTS is the elapsed time of
    [lastTS + d] plus [ptsOffset], and the flag compares that elapsed time
    with the wall-clock time since the track started. *)
Theorem getSenderReportPTS_half_span now t pkt d :
  0 <= lastTS t <= 2 ^ 63 - 2 ^ 31 ->
  - 2 ^ 31 <= d < 2 ^ 31 -> 0 <= lastTS t + d ->
  RTPTime pkt = u32 (lastTS t + d) ->
  getSenderReportPTS now t pkt
  = Some (wrap64 (getElapsed t (lastTS t + d) + ptsOffset t),
          inDelta (getElapsed t (lastTS t + d)) (wrap64 (now - startedAt t))
                  1000000000).
Proof.
  intros Hl Hd H0 Hr. unfold getSenderReportPTS.
  change (uint32Overflow / 2) with 2147483648.
  rewrite (wrap64_small (lastTS t - 2147483648)) by (unfold is_i64; lia).
  rewrite (unwrapTS_in_window _ _ (lastTS t + d));
    [reflexivity | unfold uint32Overflow; lia | unfold uint32Overflow; lia
     | exact H0 | exact Hr].
Qed.

Lemma getSenderReportPTS_half_span_witness :
  getSenderReportPTS 50000000 audio_two_packets (mkSenderReport 0 1000)
  = Some (wrap64 (getElapsed audio_two_packets (lastTS audio_two_packets + -960)
                  + ptsOffset audio_two_packets),
          inDelta (getElapsed audio_two_packets (lastTS audio_two_packets + -960))
                  (wrap64 (50000000 - startedAt audio_two_packets)) 1000000000).
Proof.
  apply (getSenderReportPTS_half_span 50000000 audio_two_packets
           (mkSenderReport 0 1000) (-960)).
  - cbn. lia.
  - lia.
  - cbn. lia.
  - vm_compute. reflexivity.
Defined.

Section SenderReportRoundTrip.

Variable Time : Type.
Variable NtpTime_Time : Z -> Time.
Variable Time_Sub : Time -> Time -> Z.

(** X13. [onSenderReport] brings the track into agreement with the
    sender: fed the PTS that [getSenderReportPTS] computed for a report,
    it leaves a track on which [getSenderReportPTS] computes the expected
    time for that report, and on which the same report with that PTS
    changes nothing. *)
Theorem onSenderReport_then_report_agrees now now' t pkt pts ok ntpStart :
  let expected := Time_Sub (NtpTime_Time (NTPTime pkt)) ntpStart in
  let t' := onSenderReport Time NtpTime_Time Time_Sub t pkt pts ntpStart in
  getSenderReportPTS now t pkt = Some (pts, ok) ->
  is_i64 expected ->
  (exists ok', getSenderReportPTS now' t' pkt = Some (expected, ok'))
  /\ onSenderReport Time NtpTime_Time Time_Sub t' pkt expected ntpStart = t'.
Proof.
  intros expected t' H He. split.
  - unfold getSenderReportPTS in *.
    assert (Hl : lastTS t' = lastTS t)
      by (subst t'; unfold onSenderReport; destruct (negb _); reflexivity).
    assert (Hg : forall ts, getElapsed t' ts = getElapsed t ts)
      by (subst t'; unfold onSenderReport; destruct (negb _); reflexivity).
    rewrite Hl.
    destruct (unwrapTS (wrap64 (lastTS t - uint32Overflow / 2)) (RTPTime pkt))
      as [ts |]; [| discriminate].
    injection H as Hpts _. rewrite Hg. eexists. f_equal. f_equal.
    subst t'. unfold onSenderReport. fold expected.
    destruct (pts =? expected) eqn:E; cbn [negb].
    + apply Z.eqb_eq in E. congruence.
    + cbn [ptsOffset set_ptsOffset]. rewrite <- Hpts.
      set (el := getElapsed t ts).
      rewrite wrap64_add_r.
      replace (el + (ptsOffset t + wrap64 (expected - wrap64 (el + ptsOffset t))))
        with (el + ptsOffset t + wrap64 (expected - wrap64 (el + ptsOffset t)))
        by lia.
      rewrite wrap64_add_r.
      replace (el + ptsOffset t + (expected - wrap64 (el + ptsOffset t)))
        with (el + ptsOffset t + expected - wrap64 (el + ptsOffset t)) by lia.
      rewrite wrap64_sub_r.
      replace (el + ptsOffset t + expected - (el + ptsOffset t)) with expected by lia.
      apply wrap64_small, He.
  - unfold onSenderReport at 1. fold expected. rewrite Z.eqb_refl. reflexivity.
Qed.

End SenderReportRoundTrip.

Lemma onSenderReport_then_report_agrees_witness :
  (exists ok',
     getSenderReportPTS 70000000
       (onSenderReport Z (fun ntp => ntp) Z.sub audio_two_packets
          (mkSenderReport 25000000 1960) 20000000 0)
       (mkSenderReport 25000000 1960)
     = Some (25000000 - 0, ok'))
  /\ onSenderReport Z (fun ntp => ntp) Z.sub
       (onSenderReport Z (fun ntp => ntp) Z.sub audio_two_packets
          (mkSenderReport 25000000 1960) 20000000 0)
       (mkSenderReport 25000000 1960) (25000000 - 0) 0
     = onSenderReport Z (fun ntp => ntp) Z.sub audio_two_packets
         (mkSenderReport 25000000 1960) 20000000 0.
Proof.
  apply (onSenderReport_then_report_agrees Z (fun ntp => ntp) Z.sub
           50000000 70000000 audio_two_packets (mkSenderReport 25000000 1960)
           20000000 true 0).
  - vm_compute. reflexivity.
  - unfold is_i64. cbn. lia.
Defined.

(** ** The two comparison helpers *)

(** X14. [inDelta] does not depend on the order of its first two
    arguments; when their difference is an int64 it says whether they are
    at most [delta] apart; and when the difference overflows it answers
    true for every [delta] that is not negative. *)
Theorem inDelta_spec a b delta :
  inDelta a b delta = inDelta b a delta
  /\ (is_i64 (a - b) -> is_i64 (b - a) ->
      (inDelta a b delta = true <-> Z.abs (a - b) <= delta))
  /\ (is_i64 a -> is_i64 b -> 2 ^ 63 <= a - b -> 0 <= delta ->
      inDelta a b delta = true).
Proof.
  unfold inDelta. split; [| split].
  - destruct (b <? a) eqn:E1, (a <? b) eqn:E2;
      try reflexivity;
      rewrite ?Z.ltb_lt, ?Z.ltb_ge in *; try lia.
    replace b with a by lia. reflexivity.
  - intros H1 H2. rewrite (wrap64_small _ H1), (wrap64_small _ H2).
    destruct (b <? a) eqn:E; rewrite ?Z.ltb_lt, ?Z.ltb_ge in E;
      rewrite Z.leb_le; lia.
  - unfold is_i64. intros Ha Hb Hd H0.
    replace (b <? a) with true by (symmetry; apply Z.ltb_lt; lia).
    apply Z.leb_le. unfold wrap64.
    replace (a - b + 2 ^ 63) with (a - b - 2 ^ 63 + 1 * 2 ^ 64) by lia.
    rewrite Z.mod_add by lia. rewrite Z.mod_small; lia.
Qed.

Lemma inDelta_spec_witness :
  inDelta 20000000 50000000 1000000000 = inDelta 50000000 20000000 1000000000
  /\ (is_i64 (20000000 - 50000000) -> is_i64 (50000000 - 20000000) ->
      (inDelta 20000000 50000000 1000000000 = true <->
       Z.abs (20000000 - 50000000) <= 1000000000))
  /\ (is_i64 20000000 -> is_i64 50000000 -> 2 ^ 63 <= 20000000 - 50000000 ->
      0 <= 1000000000 -> inDelta 20000000 50000000 1000000000 = true).
Proof. exact (inDelta_spec 20000000 50000000 1000000000). Defined.

(** X15. For a bound [b] that is not negative, [absGreater a b] says
    whether the absolute value of [a] exceeds [b]; for a negative bound
    above the smallest int64 it is true for every [a]. *)
Theorem absGreater_spec a b :
  (0 <= b < 2 ^ 63 -> (absGreater a b = true <-> b < Z.abs a))
  /\ (- 2 ^ 63 < b < 0 -> absGreater a b = true).
Proof.
  unfold absGreater. split; intros Hb;
    rewrite (wrap64_small (- b)) by (unfold is_i64; lia);
    rewrite orb_true_iff, !Z.ltb_lt; lia.
Qed.

Lemma absGreater_spec_witness :
  (0 <= 5 < 2 ^ 63 -> (absGreater (-7) 5 = true <-> 5 < Z.abs (-7)))
  /\ (- 2 ^ 63 < 5 < 0 -> absGreater (-7) 5 = true).
Proof. exact (absGreater_spec (-7) 5). Defined.

(** ** The default frame duration, exactly *)

Lemma shr_1_exact mrs :
  0 <= shr_m mrs -> shr_m (shr_1 mrs) = shr_m mrs / 2.
Proof.
  destruct mrs as [m r s]. cbn [shr_m]. intros H.
  rewrite <- Z.div2_div.
  destruct m as [| [p | p |] | p]; try reflexivity; lia.
Qed.

Lemma iter_pos_shr_1_exact p : forall mrs,
  0 <= shr_m mrs ->
  shr_m (iter_pos shr_1 p mrs) = shr_m mrs / 2 ^ Z.pos p.
Proof.
  induction p as [p IH | p IH |]; intros mrs H; cbn [iter_pos].
  - pose proof (shr_1_bounds mrs H) as H1.
    pose proof (iter_pos_shr_1_bounds p _ (proj1 H1)) as H2.
    rewrite IH by lia. rewrite IH by lia. rewrite shr_1_exact by lia.
    assert (0 < 2 ^ Z.pos p) by (apply Z.pow_pos_nonneg; lia).
    rewrite !Z.div_div by lia. f_equal.
    replace (Z.pos p~1) with (Z.pos p + Z.pos p + 1) by lia.
    rewrite !Z.pow_add_r by lia. rewrite Z.pow_1_r. ring.
  - pose proof (iter_pos_shr_1_bounds p _ H) as H2.
    rewrite IH by lia. rewrite IH by lia.
    assert (0 < 2 ^ Z.pos p) by (apply Z.pow_pos_nonneg; lia).
    rewrite !Z.div_div by lia. f_equal.
    replace (Z.pos p~0) with (Z.pos p + Z.pos p) by lia.
    rewrite !Z.pow_add_r by lia. ring.
  - rewrite shr_1_exact by lia. reflexivity.
Qed.

Lemma shr_fexp_exact m e l mrs e' :
  0 <= m ->
  shr_fexp F64.prec F64.emax m e l = (mrs, e') ->
  e <= e' /\ shr_m mrs = m / 2 ^ (e' - e)
  /\ (e' = e \/ e' = fexp F64.prec F64.emax (Zdigits2 m + e)).
Proof.
  intros Hm. unfold shr_fexp, shr.
  assert (Hr : shr_m (shr_record_of_loc m l) = m)
    by (destruct l as [| []]; reflexivity).
  destruct (fexp F64.prec F64.emax (Zdigits2 m + e) - e) as [| p | p] eqn:E;
    intros [= <- <-]; rewrite ?Hr;
    try (rewrite Z.sub_diag, Z.div_1_r; repeat split; [lia | left; reflexivity]).
  rewrite iter_pos_shr_1_exact by lia. rewrite Hr.
  replace (e + Z.pos p - e) with (Z.pos p) by lia.
  repeat split; [lia | right; lia].
Qed.

(** What rounding does to a small quotient [mz * 2^ez], as far as the
    integer part of the result is concerned: one shift, one step of at most
    one unit, a second shift. *)
Lemma binary_round_aux_steps mz ez lz :
  0 <= mz < 2 ^ 60 -> -1000 <= ez <= -20 ->
  exists e1 e2 r m2,
    ez <= e1 <= e2 /\ e1 <= -13 /\ e2 <= -5
    /\ mz / 2 ^ (e1 - ez) <= r <= mz / 2 ^ (e1 - ez) + 1
    /\ m2 = r / 2 ^ (e2 - e1)
    /\ F64.to_int64 (binary_round_aux F64.prec F64.emax false mz ez lz)
       = m2 / 2 ^ (- e2).
Proof.
  intros Hm He. unfold binary_round_aux.
  destruct (shr_fexp F64.prec F64.emax mz ez lz) as [mrs1 e1] eqn:E1.
  destruct (shr_fexp_exact _ _ _ _ _ (proj1 Hm) E1) as (Hle1 & Hx1 & He1).
  destruct (shr_fexp_bounds _ _ _ _ _ (proj1 Hm) E1) as (Hb1 & _).
  set (r := round_nearest_even (shr_m mrs1) (loc_of_shr_record mrs1)).
  pose proof (round_nearest_even_bounds (shr_m mrs1) (loc_of_shr_record mrs1)) as Hr.
  fold r in Hr.
  destruct (shr_fexp F64.prec F64.emax r e1 loc_Exact) as [mrs2 e2] eqn:E2.
  assert (Hr0 : 0 <= r) by lia.
  destruct (shr_fexp_exact _ _ _ _ _ Hr0 E2) as (Hle2 & Hx2 & He2).
  destruct (shr_fexp_bounds _ _ _ _ _ Hr0 E2) as (Hb2 & _).
  pose proof (Zdigits2_le mz 60 Hm ltac:(lia)) as Hd1.
  assert (Hr61 : 0 <= r < 2 ^ 61) by lia.
  pose proof (Zdigits2_le r 61 Hr61 ltac:(lia)) as Hd2.
  assert (Hb : e1 <= -13 /\ e2 <= -5)
    by (unfold fexp, emin, F64.prec, F64.emax in *; lia).
  exists e1, e2, r, (shr_m mrs2).
  rewrite <- Hx1.
  repeat split; try lia; try exact Hx2.
  destruct (shr_m mrs2) as [| m | m] eqn:Em; [reflexivity | | lia].
  replace (e2 <=? F64.emax - F64.prec) with true
    by (symmetry; apply Z.leb_le; unfold F64.emax, F64.prec; lia).
  unfold F64.to_int64. cbn [cond_Zopp].
  replace (0 <=? e2) with false by (symmetry; apply Z.leb_gt; lia).
  assert (Hp : 0 < 2 ^ (- e2)) by (apply Z.pow_pos_nonneg; lia).
  assert (Hv : 0 <= Z.pos m / 2 ^ (- e2) <= Z.pos m).
  { split; [apply Z.div_pos; lia |]. apply Z.div_le_upper_bound; nia. }
  replace ((- 2 ^ 63 <=? Z.pos m / 2 ^ (- e2)) && (Z.pos m / 2 ^ (- e2) <? 2 ^ 63))
    with true; [reflexivity |].
  symmetry. apply andb_true_iff. rewrite Z.leb_le, Z.ltb_lt. lia.
Qed.

(** The integer part survives: a quotient [c / k] taken with at least 13
    fractional bits, moved by at most one unit in the last place that is
    kept, still has the integer part [c / k]. *)
Lemma floor_through_rounding c k q ez e1 e2 r m2 :
  0 < k <= 64 -> 0 <= c ->
  q = (c * 2 ^ (- ez)) / k ->
  ez <= e1 <= e2 -> e1 <= -13 -> e2 <= 0 ->
  q / 2 ^ (e1 - ez) <= r <= q / 2 ^ (e1 - ez) + 1 ->
  m2 = r / 2 ^ (e2 - e1) ->
  m2 / 2 ^ (- e2) = c / k.
Proof.
  intros Hk Hc Hq He He1 He2 Hr Hm2.
  set (P := 2 ^ (- e2)). set (B := 2 ^ (e2 - e1)). set (A2 := 2 ^ (e1 - ez)).
  assert (HP : 0 < P) by (apply Z.pow_pos_nonneg; lia).
  assert (HB : 0 < B) by (apply Z.pow_pos_nonneg; lia).
  assert (HA2 : 0 < A2) by (apply Z.pow_pos_nonneg; lia).
  assert (HP1 : 2 ^ (- e1) = P * B).
  { unfold P, B. rewrite <- Z.pow_add_r by lia. f_equal. lia. }
  assert (HQ : 2 ^ (- ez) = P * B * A2).
  { rewrite <- HP1. unfold A2. rewrite <- Z.pow_add_r by lia. f_equal. lia. }
  assert (Hbig : 8192 <= P * B).
  { rewrite <- HP1. change 8192 with (2 ^ 13). apply Z.pow_le_mono_r; lia. }
  fold A2 in Hr. fold B in Hm2. fold P.
  assert (HA : q / A2 = (c * (P * B)) / k).
  { rewrite Hq, HQ, Z.div_div by lia.
    replace (c * (P * B * A2)) with (c * (P * B) * A2) by ring.
    apply Z.div_mul_cancel_r; lia. }
  rewrite HA in Hr. set (A := (c * (P * B)) / k) in *.
  pose proof (Z.mul_div_le (c * (P * B)) k ltac:(lia)) as HAlo.
  pose proof (Z.mul_succ_div_gt (c * (P * B)) k ltac:(lia)) as HAhi.
  fold A in HAlo, HAhi.
  set (n := c / k).
  pose proof (Z.mul_div_le c k ltac:(lia)) as Hnlo.
  pose proof (Z.mul_succ_div_gt c k ltac:(lia)) as Hnhi.
  fold n in Hnlo, Hnhi.
  assert (Hn0 : 0 <= n) by (apply Z.div_pos; lia).
  assert (HAn : n * (P * B) <= A).
  { assert (k * (n * (P * B)) < k * (A + 1)) by nia. nia. }
  assert (HAn1 : A + 2 <= (n + 1) * (P * B)).
  { assert (c + 1 <= k * (n + 1)) by lia.
    assert ((c + 1) * (P * B) <= k * (n + 1) * (P * B)) by nia.
    assert (k * A + 2 * k <= k * ((n + 1) * (P * B))) by nia.
    nia. }
  assert (Hlo : n * P <= m2).
  { subst m2. apply Z.div_le_lower_bound; [lia |]. nia. }
  assert (Hhi : m2 < (n + 1) * P).
  { subst m2. apply Z.div_lt_upper_bound; [lia |]. nia. }
  apply Z.le_antisymm.
  - assert (m2 / P < n + 1) by (apply Z.div_lt_upper_bound; nia). lia.
  - apply Z.div_le_lower_bound; nia.
Qed.

Lemma Zpos_iter_xO c d : Z.pos (Pos.iter xO c d) = Z.pos c * 2 ^ Z.pos d.
Proof.
  induction d as [| d IH] using Pos.peano_ind.
  - cbn [Pos.iter]. lia.
  - rewrite Pos.iter_succ, Pos2Z.inj_xO, IH, Pos2Z.inj_succ, Z.pow_succ_r by lia.
    ring.
Qed.

Lemma SFdiv_core_quotient m1 e1 m2 e2 :
  Z.pos (digits2_pos m1) = 53 -> Z.pos (digits2_pos m2) = 53 ->
  -100 <= e1 - e2 <= 33 ->
  exists l,
    SFdiv_core_binary F64.prec F64.emax (Z.pos m1) e1 (Z.pos m2) e2
    = ((Z.pos m1 * 2 ^ 53) / Z.pos m2, e1 - e2 - 53, l)
    /\ 0 <= (Z.pos m1 * 2 ^ 53) / Z.pos m2 < 2 ^ 60.
Proof.
  intros H1 H2 He.
  destruct (SFdiv_core_small m1 e1 m2 e2 H1 H2 He) as (q & l & Hc & Hq).
  exists l.
  assert (q = Z.pos m1 * 2 ^ 53 / Z.pos m2); [| subst q; auto].
  revert Hc. unfold SFdiv_core_binary. cbn [Zdigits2]. rewrite H1, H2. cbv zeta.
  assert (He' : Z.min (fexp F64.prec F64.emax (53 + e1 - (53 + e2))) (e1 - e2)
                = e1 - e2 - 53)
    by (unfold fexp, emin, F64.prec, F64.emax; lia).
  rewrite He'. replace (e1 - e2 - (e1 - e2 - 53)) with 53 by lia.
  rewrite Z.shiftl_mul_pow2 by lia. unfold Z.div.
  destruct (Z.div_eucl (Z.pos m1 * 2 ^ 53) (Z.pos m2)) as [q' r'].
  intros [= <- _]. reflexivity.
Qed.

Lemma div_to_int64_exact c k my dk :
  0 <= c < 2 ^ 32 -> 0 < k <= 64 -> 1 <= dk <= 7 ->
  F64.of_int k = S754_finite false my (dk - 53) ->
  Z.pos my = k * 2 ^ (53 - dk) -> Z.pos (digits2_pos my) = 53 ->
  F64.to_int64 (F64.div (F64.of_int c) (F64.of_int k)) = c / k.
Proof.
  intros [Hlo Hhi] Hk Hdk Hof Hmy Hdig. rewrite Hof.
  destruct c as [| c | c]; [rewrite Z.div_0_l by lia; reflexivity | | lia].
  pose proof (Zdigits2_le (Z.pos c) 32 (conj Hlo Hhi) ltac:(lia)) as Hd.
  cbn [Zdigits2] in Hd. set (dc := Z.pos (digits2_pos c)) in *.
  rewrite of_int_pos by (fold dc; lia). fold dc.
  unfold F64.div, SFdiv.
  destruct (SFdiv_core_quotient (Pos.iter xO c (Z.to_pos (53 - dc))) (dc - 53)
              my (dk - 53))
    as (l & -> & Hq); [| exact Hdig | lia |].
  { rewrite digits2_pos_iter_xO. fold dc. lia. }
  cbn [xorb].
  set (q := Z.pos (Pos.iter xO c (Z.to_pos (53 - dc))) * 2 ^ 53 / Z.pos my) in *.
  set (ez := dc - 53 - (dk - 53) - 53).
  destruct (binary_round_aux_steps q ez l Hq ltac:(unfold ez; lia))
    as (e1 & e2 & r & m2 & He & He1 & He2 & Hr & Hm2 & ->).
  apply (floor_through_rounding (Z.pos c) k q ez e1 e2 r m2);
    try assumption; try lia.
  unfold q. rewrite Zpos_iter_xO, Z2Pos.id, Hmy by lia.
  replace (- ez) with (53 + dk - dc) by (unfold ez; lia).
  replace (Z.pos c * 2 ^ (53 - dc) * 2 ^ 53)
    with (Z.pos c * 2 ^ (53 + dk - dc) * 2 ^ (53 - dk)).
  - apply Z.div_mul_cancel_r; [lia |].
    assert (0 < 2 ^ (53 - dk)) by (apply Z.pow_pos_nonneg; lia). lia.
  - rewrite <- !Z.mul_assoc, <- !Z.pow_add_r by lia. do 2 f_equal. lia.
Qed.

(** X16. The default frame duration is the clock rate divided by 50 for an
    audio track and by 24 for any other, rounded down: the float64 division
    and the conversion to int64 lose nothing, for every 32-bit clock rate. *)
Theorem defaultFrameDuration_exact track :
  is_u32 (ClockRate track) ->
  defaultFrameDuration (newTrackSynchronizer track)
  = match Kind track with
    | RTPCodecTypeAudio => ClockRate track / 50
    | _ => ClockRate track / 24
    end.
Proof.
  intros Hc. unfold newTrackSynchronizer. cbn [defaultFrameDuration].
  destruct (Kind track).
  - apply (div_to_int64_exact _ 24 6755399441055744 5);
      [exact Hc | lia | lia | reflexivity | reflexivity | reflexivity].
  - apply (div_to_int64_exact _ 50 7036874417766400 6);
      [exact Hc | lia | lia | reflexivity | reflexivity | reflexivity].
  - apply (div_to_int64_exact _ 24 6755399441055744 5);
      [exact Hc | lia | lia | reflexivity | reflexivity | reflexivity].
Qed.

Lemma defaultFrameDuration_exact_witness :
  defaultFrameDuration
    (newTrackSynchronizer (mkTrackRemote "audio" 44100 RTPCodecTypeAudio))
  = 44100 / 50.
Proof.
  apply (defaultFrameDuration_exact (mkTrackRemote "audio" 44100 RTPCodecTypeAudio)).
  unfold is_u32. cbn. lia.
Defined.

(** ** The invariant of the states a caller can build *)

(** X17. On every track built from [newTrackSynchronizer] by [Initialize],
    [GetPTS], the insertions and [onSenderReport] (within int64 range),
    [frameDuration], [defaultFrameDuration], [inserted] and [lastTS] are
    never negative, so the frame duration in use is never negative. *)
Theorem Built_fields_nonneg t :
  Built t ->
  0 <= frameDuration t /\ 0 <= defaultFrameDuration t
  /\ 0 <= inserted t /\ 0 <= lastTS t /\ 0 <= getFrameDurationRTP t.
Proof.
  intros H. pose proof (Built_TrackInv _ H) as HI.
  pose proof (getFrameDurationRTP_nonneg _ HI) as Hf.
  destruct HI as (H1 & H2 & H3 & H4). auto.
Qed.

Lemma Built_fields_nonneg_witness :
  0 <= frameDuration audio_two_packets
  /\ 0 <= defaultFrameDuration audio_two_packets
  /\ 0 <= inserted audio_two_packets /\ 0 <= lastTS audio_two_packets
  /\ 0 <= getFrameDurationRTP audio_two_packets.
Proof.
  apply (Built_fields_nonneg audio_two_packets).
  apply (Built_GetPTS
           (set_lastValid (set_lastPTS (set_lastSN (set_lastTS
              (Initialize 0 0 audio48k (mkPacket 1 1000)) 1000) 1) 0) true)
           (mkPacket 2 1960) audio_two_packets (mkPacket 2 1960) (20000000, None)).
  - apply (Built_GetPTS (Initialize 0 0 audio48k (mkPacket 1 1000))
             (mkPacket 1 1000) _ (mkPacket 1 1000) (0, None)).
    + apply Built_Initialize. apply Built_new. unfold is_u32. cbn. lia.
    + unfold resetFits. cbn. lia.
    + unfold is_u32. cbn. lia.
    + vm_compute. reflexivity.
  - unfold resetFits. cbn. lia.
  - unfold is_u32. cbn. lia.
  - vm_compute. reflexivity.
Defined.

(** ** Rounding, with bounds *)

Lemma shr_fexp_max m e l mrs e' :
  0 <= m ->
  shr_fexp F64.prec F64.emax m e l = (mrs, e') ->
  e' = Z.max e (fexp F64.prec F64.emax (Zdigits2 m + e))
  /\ shr_m mrs = m / 2 ^ (e' - e).
Proof.
  intros Hm H. destruct (shr_fexp_exact _ _ _ _ _ Hm H) as (_ & Hx & _).
  split; [| exact Hx].
  revert H. unfold shr_fexp, shr.
  destruct (fexp F64.prec F64.emax (Zdigits2 m + e) - e) as [| p | p] eqn:E;
    intros [= _ <-]; lia.
Qed.

Lemma Zdigits2_pow m n :
  0 <= n -> 0 <= m -> Zdigits2 m <= n -> m < 2 ^ n.
Proof.
  intros Hn Hm Hd. destruct m as [| p | p]; [apply Z.pow_pos_nonneg; lia | | lia].
  cbn [Zdigits2] in Hd. pose proof (digits2_pos_bounds p) as [_ Hhi].
  eapply Z.lt_le_trans; [exact Hhi |]. apply Z.pow_le_mono_r; lia.
Qed.

Lemma Zdigits2_nonneg m : 0 <= Zdigits2 m.
Proof. destruct m; cbn; lia. Qed.

(** Rounding a non-negative [mz * 2^ez] whose value is below 2^48: the
    shape of the result and how far its mantissa is from the exact one. *)
Lemma binary_round_aux_shape mz ez lz :
  0 <= mz -> -1000 <= ez <= -5 -> Zdigits2 mz + ez <= 48 ->
  exists e1 e2 r m2,
    ez <= e1 <= e2 /\ e2 <= e1 + 1 /\ e1 <= -5
    /\ e1 = Z.max ez (fexp F64.prec F64.emax (Zdigits2 mz + ez))
    /\ mz / 2 ^ (e1 - ez) <= r <= mz / 2 ^ (e1 - ez) + 1
    /\ m2 = r / 2 ^ (e2 - e1) /\ 0 <= m2 < 2 ^ 54
    /\ binary_round_aux F64.prec F64.emax false mz ez lz
       = match m2 with
         | Z.pos p => S754_finite false p e2
         | _ => S754_zero false
         end.
Proof.
  intros Hm He Hd. unfold binary_round_aux.
  destruct (shr_fexp F64.prec F64.emax mz ez lz) as [mrs1 e1] eqn:E1.
  destruct (shr_fexp_max _ _ _ _ _ Hm E1) as (He1 & Hx1).
  set (r := round_nearest_even (shr_m mrs1) (loc_of_shr_record mrs1)).
  pose proof (round_nearest_even_bounds (shr_m mrs1) (loc_of_shr_record mrs1)) as Hr.
  fold r in Hr.
  pose proof (Zdigits2_nonneg mz) as Hdn.
  assert (Hf1 : fexp F64.prec F64.emax (Zdigits2 mz + ez) <= -5
                /\ Zdigits2 mz + ez - 53 <= fexp F64.prec F64.emax (Zdigits2 mz + ez))
    by (unfold fexp, emin, F64.prec, F64.emax; lia).
  assert (Hp1 : 0 < 2 ^ (e1 - ez)) by (apply Z.pow_pos_nonneg; lia).
  assert (Hm1 : 0 <= shr_m mrs1 < 2 ^ 53).
  { rewrite Hx1. split; [apply Z.div_pos; lia |].
    apply Z.div_lt_upper_bound; [lia |].
    rewrite <- Z.pow_add_r by lia.
    apply (Zdigits2_pow mz (e1 - ez + 53)); lia. }
  destruct (shr_fexp F64.prec F64.emax r e1 loc_Exact) as [mrs2 e2] eqn:E2.
  assert (Hr0 : 0 <= r) by lia.
  destruct (shr_fexp_max _ _ _ _ _ Hr0 E2) as (He2 & Hx2).
  assert (Hr54 : 0 <= r < 2 ^ 54) by lia.
  pose proof (Zdigits2_le r 54 Hr54 ltac:(lia)) as Hd2.
  assert (Hf2 : fexp F64.prec F64.emax (Zdigits2 r + e1) <= e1 + 1)
    by (unfold fexp, emin, F64.prec, F64.emax; lia).
  assert (Hp2 : 0 < 2 ^ (e2 - e1)) by (apply Z.pow_pos_nonneg; lia).
  exists e1, e2, r, (shr_m mrs2). rewrite <- Hx1.
  assert (Hm2 : 0 <= shr_m mrs2 < 2 ^ 54).
  { rewrite Hx2. split; [apply Z.div_pos; lia |].
    apply Z.div_lt_upper_bound; nia. }
  repeat split; try lia; try exact Hx2.
  destruct (shr_m mrs2) as [| p | p]; [reflexivity | | lia].
  replace (e2 <=? F64.emax - F64.prec) with true
    by (symmetry; apply Z.leb_le; unfold F64.emax, F64.prec; lia).
  reflexivity.
Qed.

Lemma to_int64_of_int n : 0 <= n < 2 ^ 52 -> F64.to_int64 (F64.of_int n) = n.
Proof.
  intros Hn. destruct n as [| p | p]; [reflexivity | | lia].
  pose proof (Zdigits2_le (Z.pos p) 52 Hn ltac:(lia)) as Hd. cbn [Zdigits2] in Hd.
  rewrite of_int_pos by lia. unfold F64.to_int64. cbn [cond_Zopp].
  set (dp := Z.pos (digits2_pos p)) in *.
  replace (0 <=? dp - 53) with false by (symmetry; apply Z.leb_gt; lia).
  rewrite Zpos_iter_xO, Z2Pos.id by lia.
  replace (- (dp - 53)) with (53 - dp) by lia.
  rewrite Z.div_mul by (apply Z.pow_nonzero; lia).
  replace ((- 2 ^ 63 <=? Z.pos p) && (Z.pos p <? 2 ^ 63)) with true; [reflexivity |].
  symmetry. apply andb_true_iff. rewrite Z.leb_le, Z.ltb_lt. lia.
Qed.

Lemma round_half_up_div m d :
  0 <= m -> 0 < d ->
  m / d + (if d <=? 2 * (m mod d) then 1 else 0) = (2 * m + d) / (2 * d).
Proof.
  intros Hm Hd. pose proof (Z.div_mod m d ltac:(lia)) as E.
  pose proof (Z.mod_pos_bound m d Hd) as Hr.
  set (q := m / d) in *. set (r := m mod d) in *.
  destruct (d <=? 2 * r) eqn:C; [apply Z.leb_le in C | apply Z.leb_gt in C].
  - apply (Z.div_unique (2 * m + d) (2 * d) (q + 1) (2 * r - d)); [left; lia | nia].
  - apply (Z.div_unique (2 * m + d) (2 * d) (q + 0) (2 * r + d)); [left; lia | nia].
Qed.

(** [int64(math.Round(f))] for a positive [f] with a fraction: halves go
    up. *)
Lemma to_int64_Round m e :
  -1000 <= e <= -1 -> Z.pos m / 2 ^ (- e) + 1 < 2 ^ 52 ->
  F64.to_int64 (F64.Round (S754_finite false m e))
  = (2 * Z.pos m + 2 ^ (- e)) / (2 * 2 ^ (- e)).
Proof.
  intros He Hb. unfold F64.Round.
  replace (0 <=? e) with false by (symmetry; apply Z.leb_gt; lia).
  cbv zeta. cbn [cond_Zopp].
  assert (Hd : 0 < 2 ^ (- e)) by (apply Z.pow_pos_nonneg; lia).
  change (binary_normalize F64.prec F64.emax ?n 0 false) with (F64.of_int n).
  assert (Hq : 0 <= Z.pos m / 2 ^ (- e)) by (apply Z.div_pos; lia).
  rewrite <- round_half_up_div by lia.
  destruct (2 ^ (- e) <=? 2 * (Z.pos m mod 2 ^ (- e)));
    rewrite ?Z.add_0_r; apply to_int64_of_int; lia.
Qed.

(** [int64(math.Round(float64(x) * r))] against the exact product, both
    scaled by 2^200: it is the product rounded to an integer, up to 1/32
    above and 3/32 below. *)
Lemma rtp_mul_bounds x mr er :
  0 < x < 2 ^ 52 -> -100 <= er <= -5 ->
  x * Z.pos mr * 2 ^ (er + 200) < 2 ^ 248 ->
  let N := F64.to_int64 (F64.Round (F64.mul (F64.of_int x) (S754_finite false mr er))) in
  let Xs := x * Z.pos mr * 2 ^ (er + 200) in
  0 <= N
  /\ 2 * N * 2 ^ 200 <= 2 * Xs + 2 * 2 ^ 195 + 2 ^ 200
  /\ 2 * Xs + 2 ^ 200 < 2 * (N + 1) * 2 ^ 200 + 2 * 2 ^ 195 + 2 * 2 ^ 196.
Proof.
  intros Hx Her Hv N Xs.
  destruct x as [| px | px]; try lia.
  pose proof (Zdigits2_le (Z.pos px) 52 ltac:(lia) ltac:(lia)) as Hdx.
  cbn [Zdigits2] in Hdx.
  set (dx := Z.pos (digits2_pos px)) in *.
  assert (Hmul : F64.mul (F64.of_int (Z.pos px)) (S754_finite false mr er)
                 = binary_round_aux F64.prec F64.emax false
                     (Z.pos (Pos.iter xO px (Z.to_pos (53 - dx)) * mr))
                     (dx - 53 + er) loc_Exact).
  { rewrite of_int_pos by (fold dx; lia). reflexivity. }
  set (mz := Z.pos (Pos.iter xO px (Z.to_pos (53 - dx)) * mr)) in *.
  set (ez := dx - 53 + er) in *.
  assert (Hmz : mz = Z.pos px * 2 ^ (53 - dx) * Z.pos mr).
  { unfold mz. rewrite Pos2Z.inj_mul, Zpos_iter_xO, Z2Pos.id by lia. reflexivity. }
  set (Pz := 2 ^ (ez + 200)).
  assert (HPz : 0 < Pz) by (apply Z.pow_pos_nonneg; unfold ez; lia).
  assert (HXs : Xs = mz * Pz).
  { unfold Xs, Pz. rewrite Hmz.
    replace (er + 200) with (53 - dx + (ez + 200)) by (unfold ez; lia).
    rewrite Z.pow_add_r by (unfold ez; lia). ring. }
  assert (Hdig : Zdigits2 mz + ez <= 48).
  { assert (mz < 2 ^ (48 - ez)).
    { apply (Z.mul_lt_mono_pos_r Pz); [exact HPz |].
      rewrite <- HXs. unfold Pz. rewrite <- Z.pow_add_r by (unfold ez; lia).
      replace (48 - ez + (ez + 200)) with 248 by lia. exact Hv. }
    pose proof (Zdigits2_le mz (48 - ez) ltac:(unfold mz in *; lia)
                  ltac:(unfold ez; lia)). lia. }
  destruct (binary_round_aux_shape mz ez loc_Exact)
    as (e1 & e2 & r & m2 & He & He2 & He1 & _ & Hr & Hm2 & Hm2b & Hres);
    [unfold mz; lia | unfold ez; lia | exact Hdig |].
  set (A2 := 2 ^ (e1 - ez)) in *. set (B := 2 ^ (e2 - e1)) in *.
  set (P1 := 2 ^ (e1 + 200)). set (P2 := 2 ^ (e2 + 200)). set (D := 2 ^ (- e2)).
  assert (HA2 : 0 < A2) by (apply Z.pow_pos_nonneg; lia).
  assert (HB : 0 < B) by (apply Z.pow_pos_nonneg; lia).
  assert (HD : 0 < D) by (apply Z.pow_pos_nonneg; lia).
  assert (HP1 : P1 = Pz * A2).
  { unfold P1, Pz, A2. rewrite <- Z.pow_add_r by (unfold ez in *; lia). f_equal. lia. }
  assert (HP2 : P2 = P1 * B).
  { unfold P2, P1, B. rewrite <- Z.pow_add_r by (unfold ez in *; lia). f_equal. lia. }
  assert (HSK : 2 ^ 200 = P2 * D).
  { unfold P2, D. rewrite <- Z.pow_add_r by (unfold ez in *; lia). f_equal. lia. }
  assert (HP1b : 0 < P1 <= 2 ^ 195).
  { unfold P1. split; [apply Z.pow_pos_nonneg; unfold ez in *; lia |].
    apply Z.pow_le_mono_r; unfold ez in *; lia. }
  assert (HP2b : 0 < P2 <= 2 ^ 196).
  { unfold P2. split; [apply Z.pow_pos_nonneg; unfold ez in *; lia |].
    apply Z.pow_le_mono_r; unfold ez in *; lia. }
  set (A := mz / A2) in *.
  pose proof (Z.mul_div_le mz A2 HA2) as HAlo.
  pose proof (Z.mul_succ_div_gt mz A2 HA2) as HAhi. fold A in HAlo, HAhi.
  pose proof (Z.mul_div_le r B HB) as Hmlo.
  pose proof (Z.mul_succ_div_gt r B HB) as Hmhi. rewrite <- Hm2 in Hmlo, Hmhi.
  (* the value of the product in float64, scaled *)
  assert (HVhi : m2 * P2 <= Xs + P1).
  { rewrite HP2, HXs, HP1.
    assert (m2 * B <= A + 1) by lia.
    assert (m2 * B * (Pz * A2) <= (A + 1) * (Pz * A2)) by (apply Z.mul_le_mono_nonneg_r; nia).
    nia. }
  assert (HVlo : Xs < m2 * P2 + P1 + P2).
  { rewrite HP2, HXs. 
    assert (A < (m2 + 1) * B) by lia.
    assert (mz < A2 * (A + 1)) by lia.
    assert (mz * Pz < A2 * (A + 1) * Pz) by (apply Z.mul_lt_mono_pos_r; lia).
    assert (A2 * (A + 1) * Pz <= A2 * ((m2 + 1) * B) * Pz) by nia.
    rewrite HP1. nia. }
  (* the integer it is rounded to *)
  assert (HN : 0 <= N /\ 2 * D * N <= 2 * m2 + D < 2 * D * (N + 1)).
  { unfold N. rewrite Hmul, Hres. destruct m2 as [| p | p]; [| | lia].
    - change (F64.to_int64 (F64.Round (S754_zero false))) with 0. lia.
    - rewrite to_int64_Round.
      + fold D.
        pose proof (Z.mul_div_le (2 * Z.pos p + D) (2 * D) ltac:(lia)).
        pose proof (Z.mul_succ_div_gt (2 * Z.pos p + D) (2 * D) ltac:(lia)).
        assert (0 <= (2 * Z.pos p + D) / (2 * D)) by (apply Z.div_pos; lia).
        lia.
      + unfold ez in *. lia.
      + fold D.
        assert (Z.pos p / D < 2 ^ 49); [| lia].
        apply Z.div_lt_upper_bound; [lia |].
        apply (Z.mul_lt_mono_pos_r P2); [lia |].
        replace (D * 2 ^ 49 * P2) with (2 ^ 49 * (P2 * D)) by ring.
        rewrite <- HSK. change (2 ^ 49 * 2 ^ 200) with (2 ^ 249).
        change (2 ^ 248) with (2 ^ 248) in Hv. fold Xs in Hv. lia. }
  destruct HN as (HN0 & HNlo & HNhi).
  split; [exact HN0 |].
  rewrite HSK.
  assert (2 * D * N * P2 <= (2 * m2 + D) * P2) by (apply Z.mul_le_mono_nonneg_r; lia).
  assert ((2 * m2 + D) * P2 < 2 * D * (N + 1) * P2) by (apply Z.mul_lt_mono_pos_r; lia).
  split; nia.
Qed.


Lemma rate_quotient_bounds c Q q :
  0 < c < 2 ^ 32 -> 2 ^ 24 <= Q -> Q <= 2 ^ 24 * c ->
  c * q <= 1000000000 * Q -> 1000000000 * Q < c * (q + 1) ->
  7 <= q < 2 ^ 54 /\ Q <= 8 * (q - 6).
Proof.
  change (2 ^ 32) with 4294967296. change (2 ^ 24) with 16777216.
  change (2 ^ 54) with 18014398509481984.
  intros Hc HQ HQc Hlo Hhi.
  assert (H8 : Q <= 8 * (q - 6)).
  { apply (Z.mul_le_mono_pos_l _ _ c); [lia |].
    assert (c * Q <= 4294967295 * Q) by (apply Z.mul_le_mono_nonneg_r; lia).
    lia. }
  split; [| exact H8]. split; [lia |].
  assert (c * q <= c * (1000000000 * 16777216)); [| nia].
  eapply Z.le_trans; [exact Hlo |].
  replace (c * (1000000000 * 16777216)) with (1000000000 * (16777216 * c)) by ring.
  apply Z.mul_le_mono_nonneg_l; lia.
Qed.

Lemma two_shift_bounds q A2 B A r m2 :
  0 < A2 <= 2 -> 0 < B <= 2 ->
  A2 * A <= q < A2 * (A + 1) -> A <= r <= A + 1 ->
  B * m2 <= r < B * (m2 + 1) ->
  q - 6 <= m2 * (A2 * B) <= q + 2.
Proof.
  intros HA HB Hq Hr Hm.
  assert (HA' : A2 = 1 \/ A2 = 2) by lia.
  assert (HB' : B = 1 \/ B = 2) by lia.
  destruct HA' as [-> | ->], HB' as [-> | ->]; lia.
Qed.

Lemma product_fits x q c Q mab :
  0 <= x < 2 ^ 52 -> 0 < c -> 2 ^ 24 <= Q ->
  c * q <= 1000000000 * Q -> x * 1000000000 < 2 ^ 47 * c ->
  0 <= mab <= q + 2 -> 0 <= q ->
  x * mab < 2 ^ 48 * Q.
Proof.
  change (2 ^ 52) with 4503599627370496. change (2 ^ 24) with 16777216.
  change (2 ^ 47) with 140737488355328. change (2 ^ 48) with 281474976710656.
  intros Hx Hc HQ Hq Hxc Hm Hq0.
  assert (H1 : x * q < 140737488355328 * Q).
  { apply (Z.mul_lt_mono_pos_l c); [lia |].
    assert (x * (c * q) <= x * (1000000000 * Q))
      by (apply Z.mul_le_mono_nonneg_l; lia).
    assert (x * 1000000000 * Q < 140737488355328 * c * Q)
      by (apply Z.mul_lt_mono_pos_r; lia).
    replace (c * (x * q)) with (x * (c * q)) by ring.
    replace (c * (140737488355328 * Q)) with (140737488355328 * c * Q) by ring.
    replace (x * (1000000000 * Q)) with (x * 1000000000 * Q) in * by ring. lia. }
  assert (H2 : x * mab <= x * (q + 2)) by (apply Z.mul_le_mono_nonneg_l; lia).
  replace (x * (q + 2)) with (x * q + 2 * x) in H2 by ring. lia.
Qed.

Lemma rate_accuracy c Q q M S R :
  0 < c -> 0 < S -> 0 < Q -> 2 ^ 23 * c <= Q ->
  c * q <= 1000000000 * Q -> 1000000000 * Q < c * (q + 1) ->
  q - 6 <= M <= q + 2 -> R * Q = M * S ->
  2 ^ 23 * (1000000000 * S - c * R) <= 7 * S
  /\ 2 ^ 23 * (c * R - 1000000000 * S) <= 2 * S.
Proof.
  change (2 ^ 23) with 8388608.
  intros Hc HS HQ HQc Hlo Hhi HM HR.
  assert (H1 : c * (q - 6) <= c * M) by (apply Z.mul_le_mono_nonneg_l; lia).
  assert (H2 : c * M <= c * (q + 2)) by (apply Z.mul_le_mono_nonneg_l; lia).
  split; apply (Z.mul_le_mono_pos_r _ _ Q); try exact HQ.
  - replace (8388608 * (1000000000 * S - c * R) * Q)
      with (S * (8388608 * (1000000000 * Q - c * M)))
      by (transitivity (8388608 * (1000000000 * S * Q - c * (R * Q)));
          [rewrite HR |]; ring).
    replace (7 * S * Q) with (S * (7 * Q)) by ring.
    apply Z.mul_le_mono_nonneg_l; lia.
  - replace (8388608 * (c * R - 1000000000 * S) * Q)
      with (S * (8388608 * (c * M - 1000000000 * Q)))
      by (transitivity (8388608 * (c * (R * Q) - 1000000000 * S * Q));
          [rewrite HR |]; ring).
    replace (2 * S * Q) with (S * (2 * Q)) by ring.
    apply Z.mul_le_mono_nonneg_l; lia.
Qed.

(** [rtpDuration] of a new track: a finite number, at least 1/8, within
    7/2^23 of [10^9 / c] after multiplication by [c], and small enough for
    elapsed times below 2^47 ns to keep their product with it below 2^48. *)
Lemma rtpDuration_new_bounds c :
  0 < c < 2 ^ 32 ->
  exists mr er,
    F64.div (F64.of_int 1000000000) (F64.of_int c) = S754_finite false mr er
    /\ -100 <= er <= -5
    /\ 2 ^ (- er) <= 8 * Z.pos mr
    /\ 2 ^ 23 * (1000000000 * 2 ^ 200 - c * (Z.pos mr * 2 ^ (er + 200))) <= 7 * 2 ^ 200
    /\ 2 ^ 23 * (c * (Z.pos mr * 2 ^ (er + 200)) - 1000000000 * 2 ^ 200) <= 2 * 2 ^ 200
    /\ forall x, 0 <= x < 2 ^ 52 -> x * 1000000000 < 2 ^ 47 * c ->
         x * Z.pos mr * 2 ^ (er + 200) < 2 ^ 248.
Proof.
  intros Hc. destruct c as [| pc | pc]; try lia.
  pose proof (Zdigits2_le (Z.pos pc) 32 ltac:(lia) ltac:(lia)) as Hd.
  cbn [Zdigits2] in Hd.
  pose proof (digits2_pos_bounds pc) as [Hdlo Hdhi].
  set (dc := Z.pos (digits2_pos pc)) in *.
  replace (F64.of_int 1000000000)
    with (S754_finite false 8388608000000000 (-23)) by reflexivity.
  rewrite of_int_pos by (fold dc; lia). fold dc.
  unfold F64.div, SFdiv.
  destruct (SFdiv_core_quotient 8388608000000000 (-23)
              (Pos.iter xO pc (Z.to_pos (53 - dc))) (dc - 53))
    as (l & -> & _); [reflexivity | | lia |].
  { rewrite digits2_pos_iter_xO. fold dc. lia. }
  cbn [xorb].
  set (q := 8388608000000000 * 2 ^ 53 / Z.pos (Pos.iter xO pc (Z.to_pos (53 - dc)))).
  set (ez := -23 - (dc - 53) - 53).
  assert (Hez : ez = - 23 - dc) by (unfold ez; lia).
  set (Q := 2 ^ (- ez)).
  assert (HQ : 0 < Q) by (apply Z.pow_pos_nonneg; lia).
  assert (HQ24 : 2 ^ 24 <= Q) by (apply Z.pow_le_mono_r; lia).
  assert (HQc' : 2 ^ 23 * Z.pos pc <= Q).
  { unfold Q. replace (- ez) with (23 + dc) by lia.
    rewrite Z.pow_add_r by lia. apply Z.mul_le_mono_nonneg_l; lia. }
  assert (HQc : Q <= 2 ^ 24 * Z.pos pc).
  { unfold Q. replace (- ez) with (24 + (dc - 1)) by lia.
    rewrite Z.pow_add_r by lia. apply Z.mul_le_mono_nonneg_l; lia. }
  assert (Hqv : q = (1000000000 * Q) / Z.pos pc).
  { unfold q, Q. rewrite Zpos_iter_xO, Z2Pos.id by lia.
    replace (- ez) with (23 + dc) by lia.
    replace (8388608000000000 * 2 ^ 53)
      with (1000000000 * 2 ^ (23 + dc) * 2 ^ (53 - dc)).
    - apply Z.div_mul_cancel_r; [lia |].
      assert (0 < 2 ^ (53 - dc)) by (apply Z.pow_pos_nonneg; lia). lia.
    - change 8388608000000000 with (1000000000 * 2 ^ 23).
      rewrite <- !Z.mul_assoc, <- !Z.pow_add_r by lia. do 2 f_equal. lia. }
  pose proof (Z.mul_div_le (1000000000 * Q) (Z.pos pc) ltac:(lia)) as Hqlo.
  pose proof (Z.mul_succ_div_gt (1000000000 * Q) (Z.pos pc) ltac:(lia)) as Hqhi.
  rewrite <- Hqv in Hqlo, Hqhi. clear Hqv. clearbody q.
  destruct (rate_quotient_bounds (Z.pos pc) Q q Hc HQ24 HQc Hqlo ltac:(lia))
    as (Hq54 & HQ8).
  pose proof (Zdigits2_le q 54 ltac:(lia) ltac:(lia)) as Hdq.
  destruct (binary_round_aux_shape q ez l)
    as (e1 & e2 & r & m2 & He & He2 & He1 & He1x & Hr & Hm2 & Hm2b & Hres);
    [lia | lia | lia |].
  assert (He1b : e1 <= ez + 1)
    by (rewrite He1x; unfold fexp, emin, F64.prec, F64.emax; lia).
  clear He1x.
  assert (HA2 : 0 < 2 ^ (e1 - ez) <= 2).
  { split; [apply Z.pow_pos_nonneg; lia |].
    change 2 with (2 ^ 1) at 2. apply Z.pow_le_mono_r; lia. }
  assert (HB : 0 < 2 ^ (e2 - e1) <= 2).
  { split; [apply Z.pow_pos_nonneg; lia |].
    change 2 with (2 ^ 1) at 2. apply Z.pow_le_mono_r; lia. }
  assert (HAB : Q = 2 ^ (- e2) * (2 ^ (e1 - ez) * 2 ^ (e2 - e1))).
  { unfold Q. rewrite <- !Z.pow_add_r by lia. f_equal. lia. }
  set (A2 := 2 ^ (e1 - ez)) in *. set (B := 2 ^ (e2 - e1)) in *.
  pose proof (Z.mul_div_le q A2 ltac:(lia)) as HAlo.
  pose proof (Z.mul_succ_div_gt q A2 ltac:(lia)) as HAhi.
  pose proof (Z.mul_div_le r B ltac:(lia)) as Hmlo.
  pose proof (Z.mul_succ_div_gt r B ltac:(lia)) as Hmhi. rewrite <- Hm2 in Hmlo, Hmhi.
  destruct (two_shift_bounds q A2 B (q / A2) r m2 HA2 HB ltac:(lia) Hr ltac:(lia))
    as (Hlow & Hupp).
  assert (HABpos : 0 < A2 * B) by (apply Z.mul_pos_pos; lia).
  assert (Hm2pos : 0 < m2).
  { destruct (Z.lt_ge_cases 0 m2) as [H | H]; [exact H |].
    assert (m2 * (A2 * B) <= 0) by (apply Z.mul_nonpos_nonneg; lia). lia. }
  destruct m2 as [| mr | mr]; try lia.
  exists mr, e2. split; [exact Hres |].
  split; [lia |].
  assert (HD : 0 < 2 ^ (- e2)) by (apply Z.pow_pos_nonneg; lia).
  set (P2 := 2 ^ (e2 + 200)).
  assert (HP2 : 0 < P2) by (apply Z.pow_pos_nonneg; lia).
  assert (HS : 2 ^ 200 = P2 * 2 ^ (- e2)).
  { unfold P2. rewrite <- Z.pow_add_r by lia. f_equal. lia. }
  split; [| split; [| split]].
  - apply (Z.mul_le_mono_pos_r _ _ (A2 * B)); [exact HABpos |].
    rewrite <- HAB.
    replace (8 * Z.pos mr * (A2 * B)) with (8 * (Z.pos mr * (A2 * B))) by ring.
    lia.
  - apply (rate_accuracy (Z.pos pc) Q q (Z.pos mr * (A2 * B)) (2 ^ 200) (Z.pos mr * P2));
      try lia. rewrite HS, HAB. ring.
  - apply (rate_accuracy (Z.pos pc) Q q (Z.pos mr * (A2 * B)) (2 ^ 200) (Z.pos mr * P2));
      try lia. rewrite HS, HAB. ring.
  - intros x Hx Hxc.
    pose proof (product_fits x q (Z.pos pc) Q (Z.pos mr * (A2 * B))
                  Hx ltac:(lia) HQ24 Hqlo Hxc ltac:(lia) ltac:(lia)) as Hfit.
    apply (Z.mul_lt_mono_pos_r Q); [exact HQ |].
    replace (x * Z.pos mr * P2 * Q)
      with (x * (Z.pos mr * (A2 * B)) * 2 ^ 200) by (rewrite HS, HAB; ring).
    change (2 ^ 248) with (2 ^ 48 * 2 ^ 200).
    replace (2 ^ 48 * 2 ^ 200 * Q) with (2 ^ 48 * Q * 2 ^ 200) by ring.
    apply Z.mul_lt_mono_pos_r; [apply Z.pow_pos_nonneg; lia | exact Hfit].
Qed.

(** [int64(math.Round(float64(x) * t.rtpDuration))] on a track whose rate
    is [10^9 / c]: within one of [x * 10^9 / c], and not decreasing in [x],
    while the result is below 2^47. *)
Lemma rtpToDuration_accurate t c x :
  0 < c < 2 ^ 32 ->
  rtpDuration t = F64.div (F64.of_int 1000000000) (F64.of_int c) ->
  0 <= x -> x * 1000000000 < 2 ^ 47 * c ->
  x * 1000000000 - c < c * rtpToDuration t x < x * 1000000000 + c
  /\ 0 <= rtpToDuration t x.
Proof.
  intros Hc Hr Hx Hxc.
  destruct (rtpDuration_new_bounds c Hc)
    as (mr & er & E & Her & H8 & Hacc1 & Hacc2 & Hfit).
  unfold rtpToDuration. rewrite Hr, E.
  destruct (Z.eq_dec x 0) as [-> | Hx0].
  { change (F64.to_int64 (F64.Round (F64.mul (F64.of_int 0) (S754_finite false mr er))))
      with 0. lia. }
  assert (Hx52 : 0 < x < 2 ^ 52).
  { change (2 ^ 32) with 4294967296 in Hc. change (2 ^ 47) with 140737488355328 in Hxc.
    change (2 ^ 52) with 4503599627370496. lia. }
  destruct (rtp_mul_bounds x mr er Hx52 Her (Hfit x ltac:(lia) Hxc))
    as (HN0 & HNhi & HNlo).
  set (N := F64.to_int64 _) in *.
  set (R := Z.pos mr * 2 ^ (er + 200)) in *.
  replace (x * Z.pos mr * 2 ^ (er + 200)) with (x * R) in * by (unfold R; ring).
  change (2 ^ 200) with (32 * 2 ^ 195) in *.
  change (2 ^ 196) with (2 * 2 ^ 195) in *.
  assert (HU : 0 < 2 ^ 195) by (apply Z.pow_pos_nonneg; lia).
  set (U := 2 ^ 195) in *. clearbody U R N.
  change (2 ^ 23) with 8388608 in *. change (2 ^ 47) with 140737488355328 in *.
  change (2 ^ 32) with 4294967296 in *.
  split; [| exact HN0].
  (* c * (x * R) against x * 10^9 * 32 U *)
  assert (Ha1 : 8388608 * (x * (1000000000 * (32 * U)) - c * (x * R)) <= x * (7 * (32 * U))).
  { replace (8388608 * (x * (1000000000 * (32 * U)) - c * (x * R)))
      with (x * (8388608 * (1000000000 * (32 * U) - c * R))) by ring.
    apply Z.mul_le_mono_nonneg_l; lia. }
  assert (Ha2 : 8388608 * (c * (x * R) - x * (1000000000 * (32 * U))) <= x * (2 * (32 * U))).
  { replace (8388608 * (c * (x * R) - x * (1000000000 * (32 * U))))
      with (x * (8388608 * (c * R - 1000000000 * (32 * U)))) by ring.
    apply Z.mul_le_mono_nonneg_l; lia. }
  (* x * 7 <= 2^20 * c *)
  assert (Hxs : 8 * (7 * x) <= 8388608 * c) by lia.
  assert (Hb1 : x * (7 * (32 * U)) * 8 <= 8388608 * c * (32 * U)).
  { replace (x * (7 * (32 * U)) * 8) with (8 * (7 * x) * (32 * U)) by ring.
    apply Z.mul_le_mono_nonneg_r; lia. }
  assert (HcN1 : c * (2 * N * (32 * U)) <= c * (2 * (x * R) + 2 * U + 32 * U))
    by (apply Z.mul_le_mono_nonneg_l; lia).
  assert (HcN2 : c * (2 * (x * R) + 32 * U)
                 < c * (2 * (N + 1) * (32 * U) + 2 * U + 2 * (2 * U)))
    by (apply Z.mul_lt_mono_pos_l; lia).
  set (cxR := c * (x * R)) in *.
  replace (c * (2 * (x * R) + 2 * U + 32 * U)) with (2 * cxR + c * U * 34) in HcN1
    by (unfold cxR; ring).
  replace (c * (2 * (x * R) + 32 * U)) with (2 * cxR + c * U * 32) in HcN2
    by (unfold cxR; ring).
  replace (c * (2 * N * (32 * U))) with (64 * (c * N * U)) in HcN1 by ring.
  replace (c * (2 * (N + 1) * (32 * U) + 2 * U + 2 * (2 * U)))
    with (64 * (c * N * U) + c * U * 70) in HcN2 by ring.
  replace (8388608 * c * (32 * U)) with (268435456 * (c * U)) in Hb1 by ring.
  replace (x * (7 * (32 * U)) * 8) with (1792 * (x * U)) in Hb1 by ring.
  replace (x * (7 * (32 * U))) with (224 * (x * U)) in Ha1 by ring.
  replace (x * (2 * (32 * U))) with (64 * (x * U)) in Ha2 by ring.
  replace (x * (1000000000 * (32 * U))) with (32000000000 * (x * U)) in Ha1, Ha2 by ring.
  clearbody cxR.
  assert (HcU : 0 < c * U) by (apply Z.mul_pos_pos; lia).
  assert (HxU : 0 < x * U) by (apply Z.mul_pos_pos; lia).
  split.
  - apply (Z.mul_lt_mono_pos_r U); [exact HU |].
    replace ((x * 1000000000 - c) * U) with (1000000000 * (x * U) - c * U) by ring.
    replace (c * N * U) with (c * N * U) by ring. lia.
  - apply (Z.mul_lt_mono_pos_r U); [exact HU |].
    replace ((x * 1000000000 + c) * U) with (1000000000 * (x * U) + c * U) by ring.
    lia.
Qed.

Lemma rtpToDuration_monotone t c x y :
  0 < c < 2 ^ 32 ->
  rtpDuration t = F64.div (F64.of_int 1000000000) (F64.of_int c) ->
  0 <= x <= y -> y * 1000000000 < 2 ^ 47 * c ->
  0 <= rtpToDuration t x <= rtpToDuration t y /\ rtpToDuration t y <= 2 ^ 47.
Proof.
  intros Hc Hr Hxy Hyc.
  pose proof (rtpToDuration_accurate t c y Hc Hr ltac:(lia) Hyc) as (Hay & Hy0).
  assert (Htop : rtpToDuration t y <= 2 ^ 47).
  { destruct (Z.le_gt_cases (rtpToDuration t y) (2 ^ 47)) as [H | H]; [exact H |].
    assert (c * (2 ^ 47 + 1) <= c * rtpToDuration t y)
      by (apply Z.mul_le_mono_nonneg_l; lia). lia. }
  split; [| exact Htop].
  destruct (Z.eq_dec x y) as [-> | Hne]; [lia |].
  destruct (rtpDuration_new_bounds c Hc)
    as (mr & er & E & Her & H8 & _ & _ & Hfit).
  unfold rtpToDuration in *. rewrite Hr, E in *.
  destruct (Z.eq_dec x 0) as [-> | Hx0].
  { change (F64.to_int64 (F64.Round (F64.mul (F64.of_int 0) (S754_finite false mr er))))
      with 0. lia. }
  assert (Hy52 : 0 < y < 2 ^ 52).
  { change (2 ^ 32) with 4294967296 in Hc. change (2 ^ 47) with 140737488355328 in Hyc.
    change (2 ^ 52) with 4503599627370496. lia. }
  assert (Hxc : x * 1000000000 < 2 ^ 47 * c) by lia.
  destruct (rtp_mul_bounds x mr er ltac:(lia) Her (Hfit x ltac:(lia) Hxc))
    as (HN0 & HNhi & _).
  destruct (rtp_mul_bounds y mr er Hy52 Her (Hfit y ltac:(lia) Hyc))
    as (_ & _ & HMlo).
  set (N := F64.to_int64 (F64.Round (F64.mul (F64.of_int x) _))) in *.
  set (M := F64.to_int64 (F64.Round (F64.mul (F64.of_int y) _))) in *.
  split; [exact HN0 |].
  set (R := Z.pos mr * 2 ^ (er + 200)) in *.
  replace (x * Z.pos mr * 2 ^ (er + 200)) with (x * R) in * by (unfold R; ring).
  replace (y * Z.pos mr * 2 ^ (er + 200)) with (y * R) in * by (unfold R; ring).
  assert (HR : 4 * 2 ^ 195 <= R).
  { unfold R. set (P := 2 ^ (er + 200)).
    assert (HP : 0 < P) by (apply Z.pow_pos_nonneg; lia).
    assert (HS : 32 * 2 ^ 195 = 2 ^ (- er) * P).
    { unfold P. change (32 * 2 ^ 195) with (2 ^ 200).
      rewrite <- Z.pow_add_r by lia. f_equal. lia. }
    assert (2 ^ (- er) * P <= 8 * Z.pos mr * P)
      by (apply Z.mul_le_mono_nonneg_r; lia). lia. }
  change (2 ^ 200) with (32 * 2 ^ 195) in *.
  change (2 ^ 196) with (2 * 2 ^ 195) in *.
  assert (HU : 0 < 2 ^ 195) by (apply Z.pow_pos_nonneg; lia).
  set (U := 2 ^ 195) in *. clearbody U R N M.
  destruct (Z.le_gt_cases N M) as [H | H]; [exact H | exfalso].
  assert (Hd : 1 * R <= (y - x) * R) by (apply Z.mul_le_mono_nonneg_r; lia).
  replace ((y - x) * R) with (y * R - x * R) in Hd by ring.
  assert (2 * (M + 1) * (32 * U) <= 2 * N * (32 * U))
    by (apply Z.mul_le_mono_nonneg_r; lia). lia.
Qed.

(** The same, against the integer quotient: the result is the quotient or
    the quotient plus one, and the quotient itself when the division is
    exact. *)
Lemma rtpToDuration_quotient t c x :
  0 < c < 2 ^ 32 ->
  rtpDuration t = F64.div (F64.of_int 1000000000) (F64.of_int c) ->
  0 <= x -> x * 1000000000 < 2 ^ 47 * c ->
  x * 1000000000 / c <= rtpToDuration t x <= x * 1000000000 / c + 1
  /\ ((x * 1000000000) mod c = 0 -> rtpToDuration t x = x * 1000000000 / c).
Proof.
  intros Hc Hr Hx Hxc.
  destruct (rtpToDuration_accurate t c x Hc Hr Hx Hxc) as ((Hlo & Hhi) & _).
  pose proof (Z.mul_div_le (x * 1000000000) c ltac:(lia)) as Hq1.
  pose proof (Z.mul_succ_div_gt (x * 1000000000) c ltac:(lia)) as Hq2.
  pose proof (Z.div_mod (x * 1000000000) c ltac:(lia)) as Hdm.
  set (X := x * 1000000000) in *. set (q := X / c) in *.
  set (N := rtpToDuration t x) in *. clearbody N q X.
  assert (Hge : q <= N).
  { destruct (Z.le_gt_cases q N) as [H | H]; [exact H | exfalso].
    assert (c * N <= c * (q - 1)) by (apply Z.mul_le_mono_nonneg_l; lia). lia. }
  assert (Hle : N <= q + 1).
  { destruct (Z.le_gt_cases N (q + 1)) as [H | H]; [exact H | exfalso].
    assert (c * (q + 2) <= c * N) by (apply Z.mul_le_mono_nonneg_l; lia). lia. }
  split; [lia |]. intros Hm. rewrite Hm in Hdm.
  destruct (Z.le_gt_cases N q) as [H | H]; [lia | exfalso].
  assert (c * (q + 1) <= c * N) by (apply Z.mul_le_mono_nonneg_l; lia). lia.
Qed.

Lemma elapsed_arg_fits c x :
  0 < c < 2 ^ 32 -> 0 <= x -> x * 1000000000 < 2 ^ 47 * c -> is_i64 x.
Proof.
  unfold is_i64. change (2 ^ 32) with 4294967296.
  change (2 ^ 47) with 140737488355328. lia.
Qed.

Lemma getElapsed_ext t' t ts :
  rtpDuration t' = rtpDuration t -> firstTS t' = firstTS t ->
  getElapsed t' ts = getElapsed t ts.
Proof.
  intros Hr Hf. unfold getElapsed, rtpToDuration. rewrite Hr, Hf. reflexivity.
Qed.

(** What a call of [GetPTS] that neither resets nor ends the stream
    leaves and returns. *)
Lemma GetPTS_no_reset_result t pkt t' pkt' pts :
  needsReset t (correctedSN t pkt) = false ->
  GetPTS t pkt = Some (t', pkt', (pts, None)) ->
  lastTS t <= lastTS t' /\ lastPTS t' = pts
  /\ firstTS t' = firstTS t /\ ptsOffset t' = ptsOffset t
  /\ rtpDuration t' = rtpDuration t
  /\ ((lastTS t' = lastTS t /\ pts = lastPTS t)
      \/ (lastTS t' <> lastTS t
          /\ pts = wrap64 (getElapsed t (lastTS t') + ptsOffset t))).
Proof.
  intros R H.
  destruct (adjust t pkt) as [[[t1 pkt1] [[ts p] valid]] |] eqn:Ha;
    [| unfold GetPTS in H; rewrite Ha in H; discriminate].
  rewrite (GetPTS_eq _ _ _ _ _ _ _ Ha) in H. cbn zeta in H.
  destruct (adjust_cases _ _ _ _ _ _ _ Ha)
    as [(R' & _) | (_ & -> & _ & Hu & Hc)]; [congruence |].
  pose proof (unwrap_loop_ge _ _ _ _ Hu) as Hge.
  destruct (pastEnd t p valid); [discriminate |].
  destruct (learnsDuration t pkt1 valid); injection H as <- _ <-; cbn;
    (repeat split; try reflexivity; try exact Hge;
     destruct Hc as [(-> & -> & _) | (Hn & -> & _)]; [left | right]; split;
     (reflexivity || assumption)).
Qed.

(** X18. [getElapsed] is the elapsed time in whole nanoseconds: on a
    track made for clock rate [c], for a timestamp not before [firstTS]
    and an elapsed time below 2^47 ns (39 hours), the result is
    [(ts - firstTS) * 10^9 / c] rounded down or up to an integer, and is
    exactly that quotient when the division leaves no remainder. *)
Theorem getElapsed_is_elapsed_nanoseconds t c ts :
  0 < c < 2 ^ 32 ->
  rtpDuration t = F64.div (F64.of_int 1000000000) (F64.of_int c) ->
  firstTS t <= ts -> (ts - firstTS t) * 1000000000 < 2 ^ 47 * c ->
  (ts - firstTS t) * 1000000000 / c <= getElapsed t ts
    <= (ts - firstTS t) * 1000000000 / c + 1
  /\ (((ts - firstTS t) * 1000000000) mod c = 0 ->
      getElapsed t ts = (ts - firstTS t) * 1000000000 / c).
Proof.
  intros Hc Hr Hf Hb. unfold getElapsed.
  rewrite wrap64_small by (apply (elapsed_arg_fits c); lia).
  apply rtpToDuration_quotient; try assumption. lia.
Qed.

Lemma getElapsed_is_elapsed_nanoseconds_witness :
  (1960 - firstTS audio_two_packets) * 1000000000 / 48000
    <= getElapsed audio_two_packets 1960
    <= (1960 - firstTS audio_two_packets) * 1000000000 / 48000 + 1
  /\ (((1960 - firstTS audio_two_packets) * 1000000000) mod 48000 = 0 ->
      getElapsed audio_two_packets 1960
      = (1960 - firstTS audio_two_packets) * 1000000000 / 48000).
Proof.
  apply (getElapsed_is_elapsed_nanoseconds audio_two_packets 48000 1960).
  - lia.
  - reflexivity.
  - cbn. lia.
  - cbn. lia.
Defined.

(** X19. [getElapsed] keeps the order of timestamps: on a track made for
    clock rate [c], for two timestamps not before [firstTS] whose elapsed
    times are below 2^47 ns, the later timestamp never gets the smaller
    elapsed time, and both results lie between 0 and 2^47. *)
Theorem getElapsed_nondecreasing t c ts1 ts2 :
  0 < c < 2 ^ 32 ->
  rtpDuration t = F64.div (F64.of_int 1000000000) (F64.of_int c) ->
  firstTS t <= ts1 -> ts1 <= ts2 ->
  (ts2 - firstTS t) * 1000000000 < 2 ^ 47 * c ->
  0 <= getElapsed t ts1 <= getElapsed t ts2 /\ getElapsed t ts2 <= 2 ^ 47.
Proof.
  intros Hc Hr Hf Hle Hb. unfold getElapsed.
  rewrite !wrap64_small by (apply (elapsed_arg_fits c); lia).
  apply (rtpToDuration_monotone t c); try assumption. lia.
Qed.

Lemma getElapsed_nondecreasing_witness :
  0 <= getElapsed audio_two_packets 1960 <= getElapsed audio_two_packets 2920
  /\ getElapsed audio_two_packets 2920 <= 2 ^ 47.
Proof.
  apply (getElapsed_nondecreasing audio_two_packets 48000 1960 2920).
  - lia.
  - reflexivity.
  - cbn. lia.
  - lia.
  - cbn. lia.
Defined.

(** X20. Without a reset the PTS never goes back.  Take a track made for
    clock rate [c] whose last PTS is the elapsed time of its last timestamp
    plus the offset, as a call of [GetPTS] that does not reset establishes
    it for a new timestamp and keeps it for a repeated one.  A call of [GetPTS] that neither resets nor ends the stream then
    returns a PTS not below the last one, and leaves the track in the same
    relation, as long as the elapsed time stays below 2^47 ns and the
    offset is between 0 and 2^62. *)
Theorem GetPTS_pts_nondecreasing t c pkt t' pkt' pts :
  0 < c < 2 ^ 32 ->
  rtpDuration t = F64.div (F64.of_int 1000000000) (F64.of_int c) ->
  0 <= ptsOffset t < 2 ^ 62 ->
  lastPTS t = wrap64 (getElapsed t (lastTS t) + ptsOffset t) ->
  needsReset t (correctedSN t pkt) = false ->
  GetPTS t pkt = Some (t', pkt', (pts, None)) ->
  firstTS t <= lastTS t ->
  (lastTS t' - firstTS t) * 1000000000 < 2 ^ 47 * c ->
  lastPTS t <= pts
  /\ lastPTS t' = wrap64 (getElapsed t' (lastTS t') + ptsOffset t').
Proof.
  intros Hc Hr Hoff Hsync R H Hf Hb.
  destruct (GetPTS_no_reset_result _ _ _ _ _ R H)
    as (Hle & HP & HF & HO & HR & Hcase).
  rewrite HP, HO, (getElapsed_ext t' t) by assumption.
  destruct Hcase as [(He & ->) | (Hne & ->)].
  - split; [lia |]. rewrite He. exact Hsync.
  - split; [| reflexivity]. rewrite Hsync.
    unfold getElapsed.
    rewrite !(wrap64_small (_ - firstTS t)) by (apply (elapsed_arg_fits c); lia).
    destruct (rtpToDuration_monotone t c (lastTS t - firstTS t) (lastTS t' - firstTS t)
                Hc Hr ltac:(lia) Hb) as ((H0 & Hm) & Htop).
    change (2 ^ 62) with 4611686018427387904 in Hoff.
    change (2 ^ 47) with 140737488355328 in Htop.
    rewrite !wrap64_small; [lia | |]; unfold is_i64;
      change (2 ^ 63) with 9223372036854775808; lia.
Qed.

Lemma GetPTS_pts_nondecreasing_witness :
  lastPTS audio_two_packets <= 40000000
  /\ lastPTS (set_lastPTS (set_lastSN (set_lastTS audio_two_packets 2920) 3) 40000000)
     = wrap64 (getElapsed (set_lastPTS (set_lastSN (set_lastTS audio_two_packets 2920) 3) 40000000)
                 (lastTS (set_lastPTS (set_lastSN (set_lastTS audio_two_packets 2920) 3) 40000000))
               + ptsOffset (set_lastPTS (set_lastSN (set_lastTS audio_two_packets 2920) 3) 40000000)).
Proof.
  apply (GetPTS_pts_nondecreasing audio_two_packets 48000 (mkPacket 3 2920)
           (set_lastPTS (set_lastSN (set_lastTS audio_two_packets 2920) 3) 40000000)
           (mkPacket 3 2920) 40000000).
  - lia.
  - reflexivity.
  - cbn. lia.
  - vm_compute. reflexivity.
  - vm_compute. reflexivity.
  - vm_compute. reflexivity.
  - cbn. lia.
  - cbn. lia.
Defined.

(** X21. [GetFrameDuration] returns the frame duration in nanoseconds:
    on a track made for clock rate [c], with a frame duration of [d] RTP
    units that is not negative and below 2^47 ns, the result is
    [d * 10^9 / c] rounded down or up to an integer, and exactly that
    quotient when the division leaves no remainder. *)
Theorem GetFrameDuration_is_nanoseconds t c :
  0 < c < 2 ^ 32 ->
  rtpDuration t = F64.div (F64.of_int 1000000000) (F64.of_int c) ->
  0 <= getFrameDurationRTP t ->
  getFrameDurationRTP t * 1000000000 < 2 ^ 47 * c ->
  getFrameDurationRTP t * 1000000000 / c <= GetFrameDuration t
    <= getFrameDurationRTP t * 1000000000 / c + 1
  /\ ((getFrameDurationRTP t * 1000000000) mod c = 0 ->
      GetFrameDuration t = getFrameDurationRTP t * 1000000000 / c).
Proof.
  intros Hc Hr H0 Hb. unfold GetFrameDuration. cbv zeta.
  apply rtpToDuration_quotient; assumption.
Qed.

Lemma GetFrameDuration_is_nanoseconds_witness :
  getFrameDurationRTP video90k * 1000000000 / 90000 <= GetFrameDuration video90k
    <= getFrameDurationRTP video90k * 1000000000 / 90000 + 1
  /\ ((getFrameDurationRTP video90k * 1000000000) mod 90000 = 0 ->
      GetFrameDuration video90k = getFrameDurationRTP video90k * 1000000000 / 90000).
Proof.
  apply (GetFrameDuration_is_nanoseconds video90k 90000).
  - lia.
  - reflexivity.
  - vm_compute. discriminate.
  - vm_compute. reflexivity.
Defined.
